(** * TaskTracker: the task store of [task_cli.py]

    A shallow embedding of the class [TaskTracker] (the in-memory mapping
    [self.tasks], its JSON persistence in [tasks.json], and the operations
    on it), followed by the properties of the store.

    Modelling choices, all read off the source:
    - Python's [int] is [Z]; [str] is [string].
    - [self.tasks] is a Python [dict]: an insertion-ordered mapping.  It is
      an association list (order matters for [list_tasks] and for the file
      written by [save_tasks]).  A key is an [int] (what [add_task] inserts)
      or a [str] (what [json.load] produces); [1] and ["1"] are different
      keys, as in Python.
    - A task is the five-entry dictionary literal of [add_task]; it is a
      record.
    - [datetime.now().isoformat()] reads the clock: every operation that
      reads it takes the string it got as the argument [now].
    - The file [tasks.json] is part of the state.  Its content is kept as
      the JSON document the text denotes (an object: member names with task
      objects, as [save_tasks] writes it), or as text that [json.load]
      rejects.  Files holding other JSON values are outside the model, and
      so are a disk that refuses the write and the messages printed.
    - Exceptions are explicit: an operation returns [Ok v] or [Raise e],
      together with the state it leaves behind. *)

From Stdlib Require Import ZArith List String Ascii Bool Lia.
From Stdlib Require Import DecimalString DecimalZ DecimalPos.
Import ListNotations.
Open Scope string_scope.
Open Scope list_scope.
Open Scope Z_scope.

(** ** Python values and dictionaries *)

Module Py.

(** The values used as keys of [self.tasks]. *)
Inductive key : Type :=
| KInt (n : Z)
| KStr (s : string).

(** [a == b] on keys: an [int] never equals a [str]. *)
Definition key_eqb (a b : key) : bool :=
  match a, b with
  | KInt x, KInt y => Z.eqb x y
  | KStr x, KStr y => String.eqb x y
  | _, _ => false
  end.

Definition is_int (k : key) : bool :=
  match k with KInt _ => true | KStr _ => false end.

Definition is_str (k : key) : bool := negb (is_int k).

Inductive exn : Type :=
| TypeError
| KeyError.

Inductive result (A : Type) : Type :=
| Ok (a : A)
| Raise (e : exn).
Arguments Ok {A} a.
Arguments Raise {A} e.

(** [a > b]: integers by value, strings lexicographically; a comparison
    between an [int] and a [str] raises [TypeError]. *)
Definition gt (a b : key) : result bool :=
  match a, b with
  | KInt x, KInt y => Ok (Z.ltb y x)
  | KStr x, KStr y => Ok (String.ltb y x)
  | _, _ => Raise TypeError
  end.

(** The loop of [max(iterable, default=...)]: the first item is the
    candidate, every later item replaces it when [item > candidate]. *)
Fixpoint max_from (candidate : key) (items : list key) : result key :=
  match items with
  | [] => Ok candidate
  | item :: rest =>
      match gt item candidate with
      | Ok true => max_from item rest
      | Ok false => max_from candidate rest
      | Raise e => Raise e
      end
  end.

Definition max (items : list key) (default : key) : result key :=
  match items with
  | [] => Ok default
  | first :: rest => max_from first rest
  end.

(** [v + 1]: [str + int] raises [TypeError]. *)
Definition add1 (v : key) : result Z :=
  match v with
  | KInt n => Ok (n + 1)
  | KStr _ => Raise TypeError
  end.

(** [str(n)] for an [int]: decimal digits, ["-"] in front of a negative
    number. *)
Definition str (n : Z) : string :=
  NilZero.string_of_int (Z.to_int n).

Section Dict.
Context {V : Type}.

Definition dict : Type := list (key * V).

Definition keys (d : dict) : list key := map fst d.
Definition values (d : dict) : list V := map snd d.

(** [d.get(k)] / [d[k]] *)
Fixpoint get (k : key) (d : dict) : option V :=
  match d with
  | [] => None
  | (k', v) :: rest => if key_eqb k k' then Some v else get k rest
  end.

(** [k in d] *)
Definition mem (k : key) (d : dict) : bool :=
  match get k d with
  | Some _ => true
  | None => false
  end.

(** [d[k] = v]: an existing key keeps its position, a new key goes last. *)
Fixpoint set (k : key) (v : V) (d : dict) : dict :=
  match d with
  | [] => [(k, v)]
  | (k', v') :: rest =>
      if key_eqb k k' then (k', v) :: rest else (k', v') :: set k v rest
  end.

(** [del d[k]] *)
Fixpoint del (k : key) (d : dict) : dict :=
  match d with
  | [] => []
  | (k', v') :: rest =>
      if key_eqb k k' then rest else (k', v') :: del k rest
  end.

(** A Python dictionary holds a key once. *)
Definition wf (d : dict) : Prop := NoDup (keys d).

(** [dict(pairs)]: the pairs inserted from left to right. *)
Definition of_pairs (pairs : list (key * V)) : dict :=
  fold_left (fun d kv => set (fst kv) (snd kv) d) pairs [].
End Dict.
Arguments dict V : clear implicits.

End Py.

(** ** The store *)

Module TaskTracker.
Import Py.

(** The dictionary built by [add_task]. *)
Record task : Type := {
  id : Z;
  description : string;
  status : string;
  createdAt : string;
  updatedAt : string
}.

Definition with_description (v : string) (t : task) : task :=
  {| id := id t; description := v; status := status t;
     createdAt := createdAt t; updatedAt := updatedAt t |}.

Definition with_status (v : string) (t : task) : task :=
  {| id := id t; description := description t; status := v;
     createdAt := createdAt t; updatedAt := updatedAt t |}.

Definition with_updatedAt (v : string) (t : task) : task :=
  {| id := id t; description := description t; status := status t;
     createdAt := createdAt t; updatedAt := v |}.

(** What [tasks.json] holds: text that is not JSON, or a JSON object whose
    members are task objects (member names are strings, in file order). *)
Inductive file_content : Type :=
| Invalid_json
| Json_object (members : list (string * task)).

(** The state of a process: [self.tasks], the file [TASKS_FILE] ([None]
    when [os.path.exists] is false), and how many times the file has been
    opened for writing. *)
Record world : Type := {
  tasks : dict task;
  file : option file_content;
  writes : nat
}.

(** Statements: state passing with exceptions. *)
Definition M (A : Type) : Type := world -> result A * world.

Definition ret {A} (a : A) : M A := fun w => (Ok a, w).

Definition bind {A B} (c : M A) (k : A -> M B) : M B :=
  fun w =>
    match c w with
    | (Ok a, w') => k a w'
    | (Raise e, w') => (Raise e, w')
    end.

Definition lift {A} (r : result A) : M A := fun w => (r, w).

Notation "x <- c ;; k" := (bind c (fun x => k))
  (at level 61, c at next level, right associativity).
Notation "c ;;; k" := (bind c (fun _ => k))
  (at level 61, right associativity).

Definition get_tasks : M (dict task) := fun w => (Ok (tasks w), w).

Definition put_tasks (d : dict task) : M unit :=
  fun w => (Ok tt, {| tasks := d; file := file w; writes := writes w |}).

(** [k in self.tasks] *)
Definition contains (k : key) : M bool :=
  d <- get_tasks ;; ret (mem k d).

(** [self.tasks[k]] *)
Definition getitem (k : key) : M task :=
  d <- get_tasks ;;
  match get k d with
  | Some t => ret t
  | None => lift (Raise KeyError)
  end.

(** [self.tasks[k] = t] *)
Definition setitem (k : key) (t : task) : M unit :=
  d <- get_tasks ;; put_tasks (set k t d).

(** [del self.tasks[k]] *)
Definition delitem (k : key) : M unit :=
  d <- get_tasks ;;
  if mem k d then put_tasks (del k d) else lift (Raise KeyError).

(** [self.tasks[k][field] = v]: the task object is the one the dictionary
    holds, so the entry under [k] changes in place. *)
Definition setfield (k : key) (upd : task -> task) : M unit :=
  t <- getitem k ;; setitem k (upd t).

(** [json.dump]: a key that is an [int] is written as the member name
    [str(key)], a [str] key as it is; every task becomes a JSON object. *)
Definition json_key (k : key) : string :=
  match k with
  | KInt n => str n
  | KStr s => s
  end.

Definition json_dump (d : dict task) : file_content :=
  Json_object (map (fun kv => (json_key (fst kv), snd kv)) d).

(** [json.load] of an object: a [dict] whose keys are the member names,
    which are strings. *)
Definition json_load (members : list (string * task)) : dict task :=
  of_pairs (map (fun m => (KStr (fst m), snd m)) members).

Definition load_tasks : M unit :=
  fun w =>
    match file w with
    | Some (Json_object members) =>
        (Ok tt, {| tasks := json_load members; file := file w;
                   writes := writes w |})
    | Some Invalid_json =>
        (Ok tt, {| tasks := []; file := file w; writes := writes w |})
    | None =>
        (Ok tt, {| tasks := []; file := file w; writes := writes w |})
    end.

(** [TaskTracker()]: [__init__] on a process that finds [f] on disk. *)
Definition init (f : option file_content) : world :=
  snd (load_tasks {| tasks := []; file := f; writes := 0 |}).

Definition save_tasks : M unit :=
  fun w =>
    (Ok tt, {| tasks := tasks w; file := Some (json_dump (tasks w));
               writes := S (writes w) |}).

Definition get_next_id : M Z :=
  d <- get_tasks ;;
  m <- lift (Py.max (keys d) (KInt 0)) ;;
  lift (add1 m).

Definition add_task (now : string) (description : string) : M Z :=
  task_id <- get_next_id ;;
  setitem (KInt task_id)
    {| id := task_id;
       description := description;
       status := "todo";
       createdAt := now;
       updatedAt := now |} ;;;
  save_tasks ;;;
  ret task_id.

Definition update_task (now : string) (task_id : Z) (description : string)
  : M bool :=
  present <- contains (KInt task_id) ;;
  if negb present then ret false
  else
    setfield (KInt task_id) (with_description description) ;;;
    setfield (KInt task_id) (with_updatedAt now) ;;;
    save_tasks ;;;
    ret true.

Definition delete_task (task_id : Z) : M bool :=
  present <- contains (KInt task_id) ;;
  if negb present then ret false
  else
    delitem (KInt task_id) ;;;
    save_tasks ;;;
    ret true.

Definition statuses : list string := ["todo"; "in-progress"; "done"].

(** [x in xs] on a list of strings. *)
Definition str_in (x : string) (xs : list string) : bool :=
  existsb (String.eqb x) xs.

Definition mark_task_status (now : string) (task_id : Z) (status : string)
  : M bool :=
  present <- contains (KInt task_id) ;;
  if negb present || negb (str_in status statuses) then ret false
  else
    setfield (KInt task_id) (with_status status) ;;;
    setfield (KInt task_id) (with_updatedAt now) ;;;
    save_tasks ;;;
    ret true.

(** The comprehension [[task for task in vs if task["status"] == s]]:
    a loop that appends the matching tasks to an initially empty list. *)
Definition comprehension (s : string) (vs : list task) : list task :=
  fold_left
    (fun acc t => if String.eqb (status t) s then acc ++ [t] else acc)
    vs [].

Definition list_tasks (status : option string) : M (list task) :=
  d <- get_tasks ;;
  match status with
  | None => ret (values d)
  | Some s => ret (comprehension s (values d))
  end.

End TaskTracker.

(** ** Clients of the store *)

Module Session.
Import Py TaskTracker.

(** The calls a test of the id sequence makes on one [TaskTracker]. *)
Inductive op : Type :=
| Add (now description : string)
| Delete (task_id : Z).

(** What the caller sees of each call. *)
Inductive event : Type :=
| Added (task_id : Z)
| Deleted (task_id : Z) (found : bool).

(** The calls made one after the other on the same object; an exception
    ends the process, as in [main]. *)
Fixpoint run (ops : list op) (w : world) : list event * world :=
  match ops with
  | [] => ([], w)
  | Add now description :: rest =>
      match add_task now description w with
      | (Ok i, w') => let (tr, w'') := run rest w' in (Added i :: tr, w'')
      | (Raise _, w') => ([], w')
      end
  | Delete i :: rest =>
      match delete_task i w with
      | (Ok b, w') => let (tr, w'') := run rest w' in (Deleted i b :: tr, w'')
      | (Raise _, w') => ([], w')
      end
  end.

(** The ids [add_task] returned, in call order. *)
Fixpoint added_ids (tr : list event) : list Z :=
  match tr with
  | [] => []
  | Added i :: rest => i :: added_ids rest
  | Deleted _ _ :: rest => added_ids rest
  end.

(** Each id is the one before it plus 1. *)
Fixpoint increasing_by_one (ids : list Z) : Prop :=
  match ids with
  | [] => True
  | i :: rest =>
      match rest with
      | [] => True
      | j :: _ => j = i + 1
      end /\ increasing_by_one rest
  end.

(** No [delete_task] call names the id the latest [add_task] returned
    ([last] is that id, when there is one). *)
Fixpoint keeps_latest (last : option Z) (tr : list event) : bool :=
  match tr with
  | [] => true
  | Added i :: rest => keeps_latest (Some i) rest
  | Deleted i _ :: rest =>
      match last with
      | Some l => negb (Z.eqb i l)
      | None => true
      end && keeps_latest last rest
  end.

(** The states a process reaches: it starts as [TaskTracker()], with or
    without a file on disk, and calls the five operations in any order. *)
Inductive reachable : world -> Prop :=
| reach_init f : reachable (init f)
| reach_load w : reachable w -> reachable (snd (load_tasks w))
| reach_add w now description :
    reachable w -> reachable (snd (add_task now description w))
| reach_update w now task_id description :
    reachable w -> reachable (snd (update_task now task_id description w))
| reach_delete w task_id :
    reachable w -> reachable (snd (delete_task task_id w))
| reach_mark w now task_id status :
    reachable w -> reachable (snd (mark_task_status now task_id status w)).

(** A later process: [TaskTracker()] on the file this one left. *)
Definition restart (w : world) : world := init (file w).

(** Every key is the [id] entry of the task stored under it. *)
Definition keys_match (d : dict task) : Prop :=
  forall k t, In (k, t) d -> k = KInt (id t).

End Session.

(** ** The command line: [print_usage] and [main] *)

Module Cli.
Import Py TaskTracker.

(** The built-ins of the interpreter that [main] calls on its arguments:
    [int(s)] (the integer, or the message of the [ValueError] it raises),
    [s.lower()], and [str(e)] for a caught exception. *)
Record runtime : Type := {
  int : string -> Z + string;
  lower : string -> string;
  str_exc : exn -> string
}.

(** The double quote of the usage lines. *)
Definition dquote : string := String "034"%char EmptyString.

(** [s * n] *)
Fixpoint times (s : string) (n : nat) : string :=
  match n with
  | O => EmptyString
  | S n' => String.append s (times s n')
  end.

(** The lines [print_usage] prints. *)
Definition print_usage : list string :=
  [ "Usage:";
    String.append "  python task_cli.py add "
      (String.append dquote (String.append "Task description" dquote));
    String.append "  python task_cli.py update <task_id> "
      (String.append dquote (String.append "New description" dquote));
    "  python task_cli.py delete <task_id>";
    "  python task_cli.py mark-in-progress <task_id>";
    "  python task_cli.py mark-done <task_id>";
    "  python task_cli.py list [todo|in-progress|done]" ].

(** What [load_tasks] prints when [__init__] calls it. *)
Definition load_message (f : option file_content) : list string :=
  match f with
  | Some Invalid_json =>
      ["Error: Invalid JSON file. Creating new tasks file."]
  | _ => []
  end.

(** How the body of the [try] statement ends. *)
Inductive ending : Type :=
| Returned
| SystemExit (code : Z)
| ValueError (message : string)
| Exception (e : exn).

(** [sys.argv[n]], read after a check of [len(sys.argv)]. *)
Definition arg (n : nat) (argv : list string) : string := nth n argv "".

(** A branch of [main]: how it ends, what it printed, the state it left. *)
Definition branch : Type := ending * list string * world.

Definition command_add (now : string) (argv : list string) (w : world)
  : branch :=
  if (List.length argv <? 3)%nat then
    (SystemExit 1, ["Error: Task description required"], w)
  else
    match add_task now (arg 2 argv) w with
    | (Ok task_id, w') =>
        (Returned,
         [String.append "Task added successfully (ID: "
            (String.append (str task_id) ")")], w')
    | (Raise e, w') => (Exception e, [], w')
    end.

Definition not_found (task_id : Z) : string :=
  String.append "Error: Task " (String.append (str task_id) " not found").

Definition command_update (rt : runtime) (now : string)
  (argv : list string) (w : world) : branch :=
  if (List.length argv <? 4)%nat then
    (SystemExit 1, ["Error: Task ID and new description required"], w)
  else
    match int rt (arg 2 argv) with
    | inr message => (ValueError message, [], w)
    | inl task_id =>
        match update_task now task_id (arg 3 argv) w with
        | (Ok true, w') =>
            (Returned,
             [String.append "Task "
                (String.append (str task_id) " updated successfully")], w')
        | (Ok false, w') => (Returned, [not_found task_id], w')
        | (Raise e, w') => (Exception e, [], w')
        end
    end.

Definition command_delete (rt : runtime) (argv : list string) (w : world)
  : branch :=
  if (List.length argv <? 3)%nat then
    (SystemExit 1, ["Error: Task ID required"], w)
  else
    match int rt (arg 2 argv) with
    | inr message => (ValueError message, [], w)
    | inl task_id =>
        match delete_task task_id w with
        | (Ok true, w') =>
            (Returned,
             [String.append "Task "
                (String.append (str task_id) " deleted successfully")], w')
        | (Ok false, w') => (Returned, [not_found task_id], w')
        | (Raise e, w') => (Exception e, [], w')
        end
    end.

(** The branches [mark-in-progress] and [mark-done]: the status passed to
    [mark_task_status] and the wording of the confirmation. *)
Definition command_mark (rt : runtime) (now : string) (status wording : string)
  (argv : list string) (w : world) : branch :=
  if (List.length argv <? 3)%nat then
    (SystemExit 1, ["Error: Task ID required"], w)
  else
    match int rt (arg 2 argv) with
    | inr message => (ValueError message, [], w)
    | inl task_id =>
        match mark_task_status now task_id status w with
        | (Ok true, w') =>
            (Returned,
             [String.append "Task "
                (String.append (str task_id)
                   (String.append " marked as " wording))], w')
        | (Ok false, w') => (Returned, [not_found task_id], w')
        | (Raise e, w') => (Exception e, [], w')
        end
    end.

(** The six lines printed for a task. *)
Definition print_task (t : task) : list string :=
  [ String.append "ID: " (str (id t));
    String.append "Description: " (description t);
    String.append "Status: " (status t);
    String.append "Created: " (createdAt t);
    String.append "Updated: " (updatedAt t);
    times "-" 50 ].

(** What the [list] branch prints for the tasks it found. *)
Definition listing (found : list task) : list string :=
  match found with
  | [] => ["No tasks found"]
  | _ :: _ => flat_map print_task found
  end.

Definition command_list (argv : list string) (w : world) : branch :=
  let status :=
    if (2 <? List.length argv)%nat then Some (arg 2 argv) else None in
  match list_tasks status w with
  | (Ok found, w') =>
      (Returned, listing found, w')
  | (Raise e, w') => (Exception e, [], w')
  end.

Definition command_unknown (command : string) (w : world) : branch :=
  (SystemExit 1,
   String.append "Error: Unknown command '" (String.append command "'")
   :: print_usage, w).

(** The [if]/[elif] chain on [command]. *)
Definition dispatch (rt : runtime) (now : string) (command : string)
  (argv : list string) (w : world) : branch :=
  if String.eqb command "add" then command_add now argv w
  else if String.eqb command "update" then command_update rt now argv w
  else if String.eqb command "delete" then command_delete rt argv w
  else if String.eqb command "mark-in-progress" then
    command_mark rt now "in-progress" "in progress" argv w
  else if String.eqb command "mark-done" then
    command_mark rt now "done" "done" argv w
  else if String.eqb command "list" then command_list argv w
  else command_unknown command w.

(** What a run of the program leaves: the lines printed, the exit status
    of the process, the file and the number of times it was written. *)
Record process : Type := {
  stdout : list string;
  exit_code : Z;
  disk : option file_content;
  disk_writes : nat
}.

(** The end of [main]: [sys.exit] passes the [except] clauses; a
    [ValueError] and any other exception are reported and end the process
    with status 1; a body that returns ends it with status 0.  [loaded] is
    what was printed before the [try] statement. *)
Definition finish (rt : runtime) (loaded : list string) (b : branch)
  : process :=
  match b with
  | (Returned, out, w) =>
      {| stdout := loaded ++ out; exit_code := 0;
         disk := file w; disk_writes := writes w |}
  | (SystemExit code, out, w) =>
      {| stdout := loaded ++ out; exit_code := code;
         disk := file w; disk_writes := writes w |}
  | (ValueError message, out, w) =>
      {| stdout :=
           loaded ++ out
           ++ [String.append "Error: Invalid input - " message];
         exit_code := 1; disk := file w; disk_writes := writes w |}
  | (Exception e, out, w) =>
      {| stdout :=
           loaded ++ out ++ [String.append "Error: " (str_exc rt e)];
         exit_code := 1; disk := file w; disk_writes := writes w |}
  end.

(** [main()] with [sys.argv = argv], the file [f] on disk, and [now] the
    clock reading of the operation it performs. *)
Definition main (rt : runtime) (now : string) (argv : list string)
  (f : option file_content) : process :=
  if (List.length argv <? 2)%nat then
    {| stdout := print_usage; exit_code := 1; disk := f; disk_writes := 0 |}
  else
    let tracker := init f in
    let command := lower rt (arg 1 argv) in
    finish rt (load_message f) (dispatch rt now command argv tracker).

(** A runtime to run examples with: [int] reads plain decimal literals,
    [lower] is the identity (the examples pass lower-case commands), and
    [str(e)] is the name of the exception. *)
Definition sample_runtime : runtime :=
  {| int := fun s =>
       match NilZero.int_of_string s with
       | Some d => inl (Z.of_int d)
       | None => inr (String.append "invalid literal: " s)
       end;
     lower := fun s => s;
     str_exc := fun e =>
       match e with
       | TypeError => "TypeError"
       | KeyError => "KeyError"
       end |}.

End Cli.

(** ** One process *)

Module Process.
Import Py TaskTracker.

(** [w'] is what a mutation followed by [save_tasks] leaves of [w]: the
    file is the dump of the tasks in memory, written once more. *)
Definition written (w w' : world) : Prop :=
  file w' = Some (json_dump (tasks w')) /\ writes w' = S (writes w).

(** The states of a process that found no task when it started (no file,
    a file that is not JSON, or an empty object) and then calls [add_task],
    [update_task], [delete_task] and [mark_task_status] in any order. *)
Inductive in_process : world -> Prop :=
| proc_init f : tasks (init f) = [] -> in_process (init f)
| proc_add w now description :
    in_process w -> in_process (snd (add_task now description w))
| proc_update w now task_id description :
    in_process w -> in_process (snd (update_task now task_id description w))
| proc_delete w task_id :
    in_process w -> in_process (snd (delete_task task_id w))
| proc_mark w now task_id status :
    in_process w -> in_process (snd (mark_task_status now task_id status w)).

End Process.

(** ** Notions used in the statements *)

Module Spec.
Import Py TaskTracker.

(** What [max(keys, default=0)] is on integer keys. *)
Definition is_max_id (items : list key) (m : Z) : Prop :=
  match items with
  | [] => m = 0
  | _ :: _ => In (KInt m) items /\ forall n, In (KInt n) items -> n <= m
  end.

(** An outcome of [max] that [+ 1] cannot turn into an id. *)
Definition str_or_TypeError (r : result key) : Prop :=
  r = Raise TypeError \/ exists s, r = Ok (KStr s).

(** The state after a mutation of [self.tasks] to [d] followed by
    [save_tasks]. *)
Definition saved (w : world) (d : dict task) : world :=
  {| tasks := d; file := Some (json_dump d); writes := S (writes w) |}.

(** The task [add_task] builds. *)
Definition new_task (task_id : Z) (now description : string) : task :=
  {| id := task_id; description := description; status := "todo";
     createdAt := now; updatedAt := now |}.

(** [i] is a key, every key is an integer, and no key is above [i]. *)
Definition top_id (i : Z) (d : dict task) : Prop :=
  In (KInt i) (keys d) /\
  forallb is_int (keys d) = true /\
  forall n, In (KInt n) (keys d) -> n <= i.

(** The ids returned so far: [last], when there is one, and then [ids]. *)
Definition after (last : option Z) (ids : list Z) : list Z :=
  match last with
  | Some i => i :: ids
  | None => ids
  end.

End Spec.

(** ** Facts about keys and dictionaries *)

Module PyFacts.
Import Py.

Lemma key_eqb_eq (a b : key) : key_eqb a b = true <-> a = b.
Proof.
  destruct a as [x|x], b as [y|y]; simpl; split; intros H;
    try discriminate.
  - apply Z.eqb_eq in H. now subst.
  - injection H as ->. apply Z.eqb_refl.
  - apply String.eqb_eq in H. now subst.
  - injection H as ->. apply String.eqb_refl.
Qed.

Lemma key_eqb_refl (k : key) : key_eqb k k = true.
Proof. now apply key_eqb_eq. Qed.

Lemma key_eqb_neq (a b : key) : key_eqb a b = false <-> a <> b.
Proof.
  split.
  - intros H E. apply key_eqb_eq in E. congruence.
  - intros H. destruct (key_eqb a b) eqn:E; [|reflexivity].
    apply key_eqb_eq in E. contradiction.
Qed.

Lemma key_eq_dec (a b : key) : {a = b} + {a <> b}.
Proof.
  destruct (key_eqb a b) eqn:E.
  - left. now apply key_eqb_eq.
  - right. now apply key_eqb_neq.
Qed.

Section DictFacts.
Context {V : Type}.
Implicit Types (d : dict V) (k : key) (v : V).

Lemma get_set_same k v d : get k (set k v d) = Some v.
Proof.
  induction d as [|[k' v'] d IH]; simpl.
  - now rewrite key_eqb_refl.
  - destruct (key_eqb k k') eqn:E; simpl; rewrite E; auto.
Qed.

Lemma get_set_other k k' v d : k <> k' -> get k' (set k v d) = get k' d.
Proof.
  intros N. induction d as [|[k0 v0] d IH]; simpl.
  - destruct (key_eqb k' k) eqn:E; [|reflexivity].
    apply key_eqb_eq in E. congruence.
  - destruct (key_eqb k k0) eqn:E; simpl.
    + apply key_eqb_eq in E. subst k0.
      destruct (key_eqb k' k) eqn:E'; [|reflexivity].
      apply key_eqb_eq in E'. congruence.
    + now rewrite IH.
Qed.

Lemma mem_In_keys k d : mem k d = true <-> In k (keys d).
Proof.
  unfold mem. induction d as [|[k' v'] d IH]; simpl.
  - split; [discriminate | tauto].
  - destruct (key_eqb k k') eqn:E.
    + apply key_eqb_eq in E. subst. tauto.
    + apply key_eqb_neq in E. rewrite IH. split; [tauto|].
      intros [H|H]; [congruence | assumption].
Qed.

Lemma mem_false_get k d : mem k d = false <-> get k d = None.
Proof. unfold mem. destruct (get k d); split; congruence. Qed.

Lemma get_In k v d : get k d = Some v -> In (k, v) d.
Proof.
  induction d as [|[k' v'] d IH]; simpl; [discriminate|].
  destruct (key_eqb k k') eqn:E.
  - apply key_eqb_eq in E. intros [= ->]. subst. now left.
  - intros H. right. auto.
Qed.

Lemma keys_set_mem k v d : mem k d = true -> keys (set k v d) = keys d.
Proof.
  unfold mem. induction d as [|[k' v'] d IH]; simpl; [discriminate|].
  destruct (key_eqb k k') eqn:E; simpl; [reflexivity|].
  intros H. now rewrite IH.
Qed.

Lemma keys_set_new k v d : mem k d = false -> keys (set k v d) = keys d ++ [k].
Proof.
  unfold mem. induction d as [|[k' v'] d IH]; simpl; [reflexivity|].
  destruct (key_eqb k k') eqn:E; simpl; [discriminate|].
  intros H. now rewrite IH.
Qed.

Lemma In_keys_set k k' v d :
  In k' (keys (set k v d)) <-> k' = k \/ In k' (keys d).
Proof.
  destruct (mem k d) eqn:E.
  - rewrite keys_set_mem by assumption. split; [tauto|].
    intros [->|H]; [|assumption]. now apply mem_In_keys.
  - rewrite keys_set_new by assumption. rewrite in_app_iff. simpl.
    split; intros H; intuition congruence.
Qed.

Lemma get_del_other k k' d : k <> k' -> get k' (del k d) = get k' d.
Proof.
  intros N. induction d as [|[k0 v0] d IH]; simpl; [reflexivity|].
  destruct (key_eqb k k0) eqn:E; simpl.
  - apply key_eqb_eq in E. subst k0.
    destruct (key_eqb k' k) eqn:E'; [|reflexivity].
    apply key_eqb_eq in E'. congruence.
  - now rewrite IH.
Qed.

Lemma In_keys_del k k' d : In k' (keys (del k d)) -> In k' (keys d).
Proof.
  induction d as [|[k0 v0] d IH]; simpl; [tauto|].
  destruct (key_eqb k k0); simpl; tauto.
Qed.

Lemma In_keys_del_other k k' d :
  k <> k' -> In k' (keys d) -> In k' (keys (del k d)).
Proof.
  intros N H. apply mem_In_keys. apply mem_In_keys in H.
  unfold mem in *. now rewrite get_del_other.
Qed.

Lemma get_del_same k d : wf d -> get k (del k d) = None.
Proof.
  unfold wf. induction d as [|[k0 v0] d IH]; simpl; [reflexivity|].
  intros W. inversion W as [|? ? Hn Wd]; subst.
  destruct (key_eqb k k0) eqn:E; simpl.
  - apply key_eqb_eq in E. subst k0.
    apply mem_false_get. destruct (mem k d) eqn:M; [|reflexivity].
    apply mem_In_keys in M. contradiction.
  - rewrite E. auto.
Qed.

Lemma wf_set k v d : wf d -> wf (set k v d).
Proof.
  unfold wf. intros W. destruct (mem k d) eqn:E.
  - now rewrite keys_set_mem.
  - rewrite keys_set_new by assumption.
    apply NoDup_app; [assumption | repeat constructor; simpl; tauto |].
    intros x Hx [<-|[]]. apply mem_In_keys in Hx. congruence.
Qed.

Lemma wf_del k d : wf d -> wf (del k d).
Proof.
  unfold wf. induction d as [|[k0 v0] d IH]; simpl; [auto|].
  intros W. inversion W as [|? ? Hn Wd]; subst.
  destruct (key_eqb k k0); simpl; [assumption|].
  constructor; [|auto]. intros H. apply Hn. now apply In_keys_del in H.
Qed.

Lemma In_set d k v k' v' :
  In (k', v') (set k v d) -> (k' = k /\ v' = v) \/ In (k', v') d.
Proof.
  induction d as [|[k0 v0] d IH]; simpl.
  - intros [H|[]]. injection H as <- <-. now left.
  - destruct (key_eqb k k0) eqn:E; simpl.
    + apply key_eqb_eq in E. subst k0.
      intros [H|H]; [injection H as <- <-; now left | tauto].
    + intros [H|H]; [tauto|]. apply IH in H. tauto.
Qed.

Lemma In_del d k k' v' : In (k', v') (del k d) -> In (k', v') d.
Proof.
  induction d as [|[k0 v0] d IH]; simpl; [tauto|].
  destruct (key_eqb k k0); simpl; tauto.
Qed.

End DictFacts.

End PyFacts.

(** ** [max] over the keys, and [get_next_id] *)

Module NextId.
Import Py PyFacts TaskTracker Spec.

(** With integers only, the loop of [max] returns an upper bound that is
    the candidate or one of the items. *)
Lemma max_from_ints (items : list key) :
  forallb is_int items = true ->
  forall c, exists m,
    max_from (KInt c) items = Ok (KInt m) /\
    c <= m /\
    (forall n, In (KInt n) items -> n <= m) /\
    (m = c \/ In (KInt m) items).
Proof.
  induction items as [|[x|s] items IH]; simpl; intros H c.
  - exists c. repeat split; [lia | tauto | now left].
  - destruct (Z.ltb_spec c x) as [L|L].
    + destruct (IH H x) as (m & E & B1 & B2 & B3).
      exists m. repeat split; [assumption | lia | | ].
      * intros n [[= <-]|Hn]; [assumption | auto].
      * right. destruct B3 as [->|B3]; [now left | now right].
    + destruct (IH H c) as (m & E & B1 & B2 & B3).
      exists m. repeat split; [assumption | lia | | tauto].
      intros n [[= <-]|Hn]; [lia | auto].
  - discriminate.
Qed.

Lemma max_ints (items : list key) :
  forallb is_int items = true ->
  exists m, Py.max items (KInt 0) = Ok (KInt m) /\ is_max_id items m.
Proof.
  destruct items as [|[x|s] items]; simpl; intros H.
  - now exists 0.
  - destruct (max_from_ints items H x) as (m & E & B1 & B2 & B3).
    exists m. split; [assumption|]. split.
    + destruct B3 as [->|B3]; [now left | now right].
    + intros n [[= <-]|Hn]; [assumption | auto].
  - discriminate.
Qed.

Lemma is_max_id_unique (items : list key) (m m' : Z) :
  is_max_id items m -> is_max_id items m' -> m = m'.
Proof.
  destruct items as [|k items]; unfold is_max_id.
  - congruence.
  - intros [I1 B1] [I2 B2]. apply B1 in I2. apply B2 in I1. lia.
Qed.

Lemma max_from_str (items : list key) :
  forall c, is_str c = true \/ existsb is_str items = true ->
    str_or_TypeError (max_from c items).
Proof.
  induction items as [|item items IH]; simpl; intros c H.
  - destruct H as [H|H]; [|discriminate].
    destruct c; [discriminate|]. right. eauto.
  - destruct c as [c|c], item as [x|x]; simpl in *.
    + destruct (Z.ltb c x); apply IH; right;
        destruct H as [H|H]; try discriminate; assumption.
    + now left.
    + now left.
    + destruct (String.ltb c x); apply IH; now left.
Qed.

Lemma max_add1_str (items : list key) :
  existsb is_str items = true ->
  match Py.max items (KInt 0) with
  | Ok m => add1 m
  | Raise e => Raise e
  end = Raise TypeError.
Proof.
  destruct items as [|k items]; simpl; [discriminate|].
  intros H.
  assert (S : str_or_TypeError (max_from k items)).
  { apply max_from_str. now apply orb_true_iff in H. }
  destruct S as [->|[s ->]]; reflexivity.
Qed.

Lemma get_next_id_unfold (w : world) :
  get_next_id w =
  (match Py.max (keys (tasks w)) (KInt 0) with
   | Ok m => add1 m
   | Raise e => Raise e
   end, w).
Proof.
  unfold get_next_id, bind, get_tasks, lift.
  destruct (Py.max (keys (tasks w)) (KInt 0)); reflexivity.
Qed.

(** On a store keyed by integers [get_next_id] returns the largest key
    plus 1 (1 on the empty store). *)
Lemma get_next_id_ints (w : world) :
  forallb is_int (keys (tasks w)) = true ->
  exists m, get_next_id w = (Ok (m + 1), w) /\ is_max_id (keys (tasks w)) m.
Proof.
  intros H. rewrite get_next_id_unfold.
  destruct (max_ints _ H) as (m & E & B). exists m. now rewrite E.
Qed.

(** On a store with a string key it raises [TypeError]. *)
Lemma get_next_id_str (w : world) :
  existsb is_str (keys (tasks w)) = true ->
  get_next_id w = (Raise TypeError, w).
Proof.
  intros H. rewrite get_next_id_unfold. now rewrite max_add1_str.
Qed.

Lemma ints_or_str (items : list key) :
  forallb is_int items = true \/ existsb is_str items = true.
Proof.
  induction items as [|[x|s] items IH]; simpl; auto.
Qed.

(** A returned id tells that every key is an integer below it. *)
Lemma get_next_id_Ok (w : world) (i : Z) (w' : world) :
  get_next_id w = (Ok i, w') ->
  w' = w /\ forallb is_int (keys (tasks w)) = true /\
  is_max_id (keys (tasks w)) (i - 1).
Proof.
  intros H. destruct (ints_or_str (keys (tasks w))) as [I|S].
  - destruct (get_next_id_ints w I) as (m & E & B).
    rewrite E in H. injection H as <- <-.
    replace (m + 1 - 1) with m by lia. auto.
  - rewrite (get_next_id_str w S) in H. discriminate.
Qed.

Lemma is_max_id_bound (items : list key) (m n : Z) :
  is_max_id items m -> In (KInt n) items -> n <= m.
Proof.
  destruct items as [|k items]; simpl; [tauto|].
  intros [_ B]. apply B.
Qed.

End NextId.

(** ** The operations in closed form *)

Module Ops.
Import Py PyFacts TaskTracker Spec NextId.

Lemma set_set {V} (k : key) (v1 v2 : V) (d : dict V) :
  set k v2 (set k v1 d) = set k v2 d.
Proof.
  induction d as [|[k0 v0] d IH]; simpl.
  - now rewrite key_eqb_refl.
  - destruct (key_eqb k k0) eqn:E; simpl; rewrite E; [reflexivity|].
    now rewrite IH.
Qed.

Lemma add_task_unfold (now description : string) (w : world) :
  add_task now description w =
  match get_next_id w with
  | (Ok i, _) =>
      (Ok i, saved w (set (KInt i) (new_task i now description) (tasks w)))
  | (Raise e, w') => (Raise e, w')
  end.
Proof.
  unfold add_task, bind at 1.
  destruct (get_next_id w) as [[i|e] w'] eqn:E; [|reflexivity].
  apply get_next_id_Ok in E. destruct E as (-> & _). reflexivity.
Qed.

Lemma add_task_ints (now description : string) (w : world) :
  forallb is_int (keys (tasks w)) = true ->
  exists m,
    is_max_id (keys (tasks w)) m /\
    add_task now description w =
    (Ok (m + 1),
     saved w (set (KInt (m + 1)) (new_task (m + 1) now description) (tasks w))).
Proof.
  intros H. destruct (get_next_id_ints w H) as (m & E & B).
  exists m. split; [assumption|]. now rewrite add_task_unfold, E.
Qed.

Lemma add_task_str (now description : string) (w : world) :
  existsb is_str (keys (tasks w)) = true ->
  add_task now description w = (Raise TypeError, w).
Proof.
  intros H. now rewrite add_task_unfold, get_next_id_str.
Qed.

Lemma update_task_absent (now : string) (i : Z) (description : string)
  (w : world) :
  get (KInt i) (tasks w) = None ->
  update_task now i description w = (Ok false, w).
Proof.
  intros H. unfold update_task, bind, contains, get_tasks, ret, bind, mem.
  now rewrite H.
Qed.

Lemma update_task_present (now : string) (i : Z) (description : string)
  (w : world) (t : task) :
  get (KInt i) (tasks w) = Some t ->
  update_task now i description w =
  (Ok true,
   saved w (set (KInt i) (with_updatedAt now (with_description description t))
            (tasks w))).
Proof.
  intros H.
  unfold update_task, bind, contains, get_tasks, ret, bind, mem,
    setfield, getitem, setitem, put_tasks, save_tasks, lift, bind.
  simpl. rewrite H. simpl. rewrite H. simpl.
  rewrite get_set_same. simpl. now rewrite set_set.
Qed.

Lemma delete_task_absent (i : Z) (w : world) :
  get (KInt i) (tasks w) = None ->
  delete_task i w = (Ok false, w).
Proof.
  intros H. unfold delete_task, bind, contains, get_tasks, ret, bind, mem.
  now rewrite H.
Qed.

Lemma delete_task_present (i : Z) (w : world) (t : task) :
  get (KInt i) (tasks w) = Some t ->
  delete_task i w = (Ok true, saved w (del (KInt i) (tasks w))).
Proof.
  intros H.
  unfold delete_task, bind, contains, get_tasks, ret, bind, mem,
    delitem, put_tasks, save_tasks, lift, bind, mem.
  simpl. rewrite H. simpl. rewrite H. reflexivity.
Qed.

Lemma mark_task_status_absent (now : string) (i : Z) (s : string)
  (w : world) :
  get (KInt i) (tasks w) = None ->
  mark_task_status now i s w = (Ok false, w).
Proof.
  intros H.
  unfold mark_task_status, bind, contains, get_tasks, ret, bind, mem.
  now rewrite H.
Qed.

Lemma mark_task_status_invalid (now : string) (i : Z) (s : string)
  (w : world) :
  str_in s statuses = false ->
  mark_task_status now i s w = (Ok false, w).
Proof.
  intros H.
  unfold mark_task_status, bind, contains, get_tasks, ret, bind.
  rewrite H. simpl. now rewrite orb_true_r.
Qed.

Lemma mark_task_status_present (now : string) (i : Z) (s : string)
  (w : world) (t : task) :
  get (KInt i) (tasks w) = Some t ->
  str_in s statuses = true ->
  mark_task_status now i s w =
  (Ok true,
   saved w (set (KInt i) (with_updatedAt now (with_status s t)) (tasks w))).
Proof.
  intros H S.
  unfold mark_task_status, bind, contains, get_tasks, ret, bind, mem,
    setfield, getitem, setitem, put_tasks, save_tasks, lift, bind.
  rewrite S. simpl. rewrite H. simpl. rewrite H. simpl.
  rewrite get_set_same. simpl. now rewrite set_set.
Qed.

Lemma str_in_statuses (s : string) :
  str_in s statuses = true <-> s = "todo" \/ s = "in-progress" \/ s = "done".
Proof.
  unfold str_in, statuses. rewrite existsb_exists. split.
  - intros (x & Hx & E). apply String.eqb_eq in E. subst x.
    simpl in Hx. intuition.
  - intros H. exists s. split; [|apply String.eqb_refl].
    simpl. intuition.
Qed.

(** The loop of the comprehension keeps the matching tasks, in order. *)
Lemma comprehension_filter (s : string) (vs : list task) :
  comprehension s vs = filter (fun t => String.eqb (status t) s) vs.
Proof.
  unfold comprehension.
  enough (G : forall acc,
    fold_left
      (fun acc t => if String.eqb (status t) s then acc ++ [t] else acc)
      vs acc
    = acc ++ filter (fun t => String.eqb (status t) s) vs)
    by apply (G []).
  induction vs as [|t vs IH]; simpl; intros acc.
  - now rewrite app_nil_r.
  - rewrite IH. destruct (String.eqb (status t) s); [|reflexivity].
    now rewrite <- app_assoc.
Qed.

End Ops.

(** ** The ids [add_task] returns *)

Module Ids.
Import Py PyFacts TaskTracker Spec NextId Ops Session.

Lemma top_id_is_max (i : Z) (d : dict task) :
  top_id i d -> is_max_id (keys d) i.
Proof.
  intros (I & _ & B). unfold is_max_id.
  destruct (keys d); [destruct I | auto].
Qed.

Lemma ints_set (i : Z) (t : task) (d : dict task) :
  forallb is_int (keys d) = true ->
  forallb is_int (keys (set (KInt i) t d)) = true.
Proof.
  rewrite !forallb_forall. intros H k Hk.
  apply In_keys_set in Hk. destruct Hk as [->|Hk]; [reflexivity | auto].
Qed.

Lemma ints_del (k : key) (d : dict task) :
  forallb is_int (keys d) = true ->
  forallb is_int (keys (del k d)) = true.
Proof.
  rewrite !forallb_forall. intros H k' Hk. apply In_keys_del in Hk. auto.
Qed.

(** After [add_task] returned [j], [j] is the top id; if there was a top
    id before, [j] is its successor. *)
Lemma add_task_top (now description : string) (w w' : world) (j : Z) :
  add_task now description w = (Ok j, w') ->
  top_id j (tasks w') /\ forall i, top_id i (tasks w) -> j = i + 1.
Proof.
  rewrite add_task_unfold.
  destruct (get_next_id w) as [[i|e] w1] eqn:E; [|discriminate].
  intros [= <- <-]. apply get_next_id_Ok in E.
  destruct E as (-> & I & B). simpl. split.
  - split; [|split].
    + apply In_keys_set. now left.
    + now apply ints_set.
    + intros n Hn. apply In_keys_set in Hn.
      destruct Hn as [[= ->]|Hn]; [lia|].
      apply (is_max_id_bound _ _ _ B) in Hn. lia.
  - intros i0 T. apply top_id_is_max in T.
    pose proof (is_max_id_unique _ _ _ B T). lia.
Qed.

(** [delete_task] does not raise; it leaves the tasks alone or removes
    the entry of its argument. *)
Lemma delete_task_cases (j : Z) (w : world) :
  delete_task j w = (Ok false, w) \/
  delete_task j w = (Ok true, saved w (del (KInt j) (tasks w))).
Proof.
  destruct (get (KInt j) (tasks w)) as [t|] eqn:E.
  - right. now apply delete_task_present with t.
  - left. now apply delete_task_absent.
Qed.

Lemma delete_task_top (i j : Z) (w w' : world) (r : result bool) :
  delete_task j w = (r, w') -> j <> i ->
  top_id i (tasks w) -> top_id i (tasks w').
Proof.
  intros E N T.
  destruct (delete_task_cases j w) as [C|C]; rewrite C in E;
    injection E as <- <-; [assumption|].
  destruct T as (I & A & B). simpl. split; [|split].
  - apply In_keys_del_other; [congruence | assumption].
  - now apply ints_del.
  - intros n Hn. apply In_keys_del in Hn. auto.
Qed.

Lemma run_increasing (ops : list op) :
  forall (w : world) (last : option Z),
    match last with Some i => top_id i (tasks w) | None => True end ->
    keeps_latest last (fst (run ops w)) = true ->
    increasing_by_one (after last (added_ids (fst (run ops w)))).
Proof.
  induction ops as [|[now description|j] ops IH]; intros w last T K.
  - destruct last; simpl; auto.
  - simpl in *.
    destruct (add_task now description w) as [[i|e] w'] eqn:E.
    + destruct (add_task_top _ _ _ _ _ E) as (T' & S).
      specialize (IH w' (Some i) T').
      destruct (run ops w') as [tr w''] eqn:R. simpl in *.
      specialize (IH K).
      destruct last as [l|]; simpl; [|assumption].
      split; [auto | assumption].
    + destruct last; simpl; auto.
  - simpl in *.
    destruct (delete_task j w) as [[b|e] w'] eqn:E.
    + specialize (IH w' last).
      destruct (run ops w') as [tr w''] eqn:R. simpl in *.
      apply andb_true_iff in K. destruct K as [K1 K2].
      apply IH; [|assumption].
      destruct last as [l|]; [|exact I].
      apply (delete_task_top l j w w' (Ok b)); [assumption | | assumption].
      apply negb_true_iff, Z.eqb_neq in K1. assumption.
    + destruct last; simpl; auto.
Qed.

Lemma increasing_above (i : Z) (ids : list Z) :
  increasing_by_one (i :: ids) -> forall x, In x ids -> i < x.
Proof.
  revert i. induction ids as [|j ids IH]; intros i H x Hx; [destruct Hx|].
  destruct H as [-> H]. destruct Hx as [<-|Hx]; [lia|].
  specialize (IH _ H x Hx). lia.
Qed.

Lemma increasing_NoDup (ids : list Z) : increasing_by_one ids -> NoDup ids.
Proof.
  induction ids as [|i ids IH]; intros H; constructor.
  - intros Hi. apply (increasing_above i ids H) in Hi. lia.
  - apply IH. apply H.
Qed.

End Ids.

(** ** Properties of the store *)

Import Py PyFacts TaskTracker Spec NextId Ops Session Ids.

(** C1 (as amended): for every sequence of [add_task] and [delete_task]
    calls on one store, when no [delete_task] call names the id that the
    latest [add_task] returned, the ids returned by successive [add_task]
    calls go up by exactly 1 and none is returned twice. *)
Theorem ids_increase_while_latest_kept (ops : list op) (w : world) :
  keeps_latest None (fst (run ops w)) = true ->
  increasing_by_one (added_ids (fst (run ops w))) /\
  NoDup (added_ids (fst (run ops w))).
Proof.
  intros K.
  assert (H : increasing_by_one (added_ids (fst (run ops w)))).
  { exact (run_increasing ops w None I K). }
  split; [assumption | now apply increasing_NoDup].
Qed.

Lemma ids_increase_while_latest_kept_witness :
  let ops := [Add "t1" "a"; Add "t2" "b"; Delete 1; Add "t3" "c"] in
  keeps_latest None (fst (run ops (init None))) = true /\
  added_ids (fst (run ops (init None))) = [1; 2; 3] /\
  increasing_by_one (added_ids (fst (run ops (init None)))) /\
  NoDup (added_ids (fst (run ops (init None)))).
Proof.
  intros ops. split; [reflexivity|]. split; [reflexivity|].
  apply (ids_increase_while_latest_kept ops (init None)). reflexivity.
Defined.

(** C1 as stated fails: on a store that starts empty, [add_task],
    [delete_task(1)], [add_task] returns the id 1 twice. *)
Lemma add_returns_deleted_id_again :
  let ids :=
    added_ids
      (fst (run [Add "t1" "a"; Delete 1; Add "t2" "b"] (init None))) in
  ids = [1; 1] /\ ~ increasing_by_one ids /\ ~ NoDup ids.
Proof.
  cbv zeta. split; [reflexivity|]. split.
  - vm_compute. intros [H _]. discriminate.
  - vm_compute. intros H. inversion H as [|? ? N _]. apply N. now left.
Qed.

(** A store a process holds is a dictionary: no key occurs twice. *)
Lemma wf_of_pairs {V} (pairs : list (key * V)) : wf (of_pairs pairs).
Proof.
  unfold of_pairs.
  enough (G : forall d : dict V, wf d ->
    wf (fold_left (fun d kv => set (fst kv) (snd kv) d) pairs d))
    by (apply G; constructor).
  induction pairs as [|[k v] pairs IH]; simpl; intros d W; [assumption|].
  apply IH. now apply wf_set.
Qed.

Lemma wf_reachable (w : world) : reachable w -> wf (tasks w).
Proof.
  induction 1 as
    [f|w R IH|w now d R IH|w now i d R IH|w i R IH|w now i s R IH].
  - destruct f as [[|ms]|]; simpl; try constructor. apply wf_of_pairs.
  - unfold load_tasks. destruct (file w) as [[|ms]|]; simpl;
      try constructor. apply wf_of_pairs.
  - rewrite add_task_unfold.
    destruct (get_next_id w) as [[j|e] w'] eqn:E; simpl.
    + now apply wf_set.
    + rewrite get_next_id_unfold in E. now injection E as _ <-.
  - destruct (get (KInt i) (tasks w)) as [t|] eqn:E.
    + rewrite (update_task_present _ _ _ _ _ E). simpl. now apply wf_set.
    + now rewrite (update_task_absent _ _ _ _ E).
  - destruct (delete_task_cases i w) as [C|C]; rewrite C; simpl;
      [assumption | now apply wf_del].
  - destruct (get (KInt i) (tasks w)) as [t|] eqn:E.
    + destruct (str_in s statuses) eqn:S.
      * rewrite (mark_task_status_present _ _ _ _ _ E S). simpl.
        now apply wf_set.
      * now rewrite (mark_task_status_invalid _ _ _ _ S).
    + now rewrite (mark_task_status_absent _ _ _ _ E).
Qed.

(** C5: when [task_id] is not a key of [self.tasks], [update_task],
    [delete_task] and [mark_task_status] return [False] and leave the
    tasks, the file and the number of writes as they were; this is the
    case for an id that [delete_task] has just removed. *)
Theorem absent_id_changes_nothing
  (w : world) (task_id : Z) (now description status : string) :
  (get (KInt task_id) (tasks w) = None ->
   update_task now task_id description w = (Ok false, w) /\
   delete_task task_id w = (Ok false, w) /\
   mark_task_status now task_id status w = (Ok false, w)) /\
  (wf (tasks w) ->
   forall w', delete_task task_id w = (Ok true, w') ->
     get (KInt task_id) (tasks w') = None /\
     update_task now task_id description w' = (Ok false, w') /\
     delete_task task_id w' = (Ok false, w') /\
     mark_task_status now task_id status w' = (Ok false, w')).
Proof.
  assert (A : forall v : world, get (KInt task_id) (tasks v) = None ->
    update_task now task_id description v = (Ok false, v) /\
    delete_task task_id v = (Ok false, v) /\
    mark_task_status now task_id status v = (Ok false, v)).
  { intros v H. split; [|split].
    - now apply update_task_absent.
    - now apply delete_task_absent.
    - now apply mark_task_status_absent. }
  split; [apply A|].
  intros W w' D.
  assert (G : get (KInt task_id) (tasks w') = None).
  { destruct (delete_task_cases task_id w) as [C|C]; rewrite C in D;
      [discriminate|].
    injection D as <-. simpl. now apply get_del_same. }
  split; [assumption | now apply A].
Qed.

Lemma absent_id_changes_nothing_witness :
  let w := snd (add_task "t1" "a" (init None)) in
  (get (KInt 7) (tasks w) = None /\
   update_task "t2" 7 "b" w = (Ok false, w) /\
   delete_task 7 w = (Ok false, w) /\
   mark_task_status "t2" 7 "done" w = (Ok false, w)) /\
  (wf (tasks w) /\
   delete_task 1 w = (Ok true, snd (delete_task 1 w)) /\
   update_task "t2" 1 "b" (snd (delete_task 1 w))
   = (Ok false, snd (delete_task 1 w))).
Proof.
  intros w. split.
  - split; [reflexivity|].
    apply (proj1 (absent_id_changes_nothing w 7 "t2" "b" "done")).
    reflexivity.
  - assert (W : wf (tasks w)).
    { repeat constructor. simpl. tauto. }
    split; [exact W|]. split; [reflexivity|].
    apply (proj2 (absent_id_changes_nothing w 1 "t2" "b" "done") W
             (snd (delete_task 1 w)) eq_refl).
Defined.

(** C6: [mark_task_status] returns [True] exactly when [task_id] is a key
    of [self.tasks] and [status] is one of [todo], [in-progress], [done];
    then the task's status is [status] and its [updatedAt] is the time of
    the call; when it returns [False] nothing has changed, so the task's
    status is what it was. *)
Theorem mark_task_status_spec
  (w : world) (task_id : Z) (now status : string) :
  exists (b : bool) (w' : world),
    mark_task_status now task_id status w = (Ok b, w') /\
    (b = true <->
     mem (KInt task_id) (tasks w) = true /\
     (status = "todo" \/ status = "in-progress" \/ status = "done")) /\
    (b = true ->
     exists t,
       get (KInt task_id) (tasks w) = Some t /\
       get (KInt task_id) (tasks w')
       = Some (with_updatedAt now (with_status status t)) /\
       TaskTracker.status (with_updatedAt now (with_status status t))
       = status /\
       updatedAt (with_updatedAt now (with_status status t)) = now) /\
    (b = false -> w' = w).
Proof.
  destruct (get (KInt task_id) (tasks w)) as [t|] eqn:E.
  - destruct (str_in status statuses) eqn:S.
    + exists true. eexists. split.
      { apply (mark_task_status_present _ _ _ _ _ E S). }
      split; [|split].
      * split; [intros _|reflexivity]. split.
        -- unfold mem. now rewrite E.
        -- now apply str_in_statuses.
      * intros _. exists t. split; [reflexivity|]. simpl.
        now rewrite get_set_same.
      * discriminate.
    + exists false, w. split.
      { apply (mark_task_status_invalid _ _ _ _ S). }
      split; [|split]; try discriminate; [|reflexivity].
      split; [discriminate|]. intros [_ H].
      apply str_in_statuses in H. congruence.
  - exists false, w. split.
    { apply (mark_task_status_absent _ _ _ _ E). }
    split; [|split]; try discriminate; [|reflexivity].
    split; [discriminate|]. intros [H _]. unfold mem in H.
    rewrite E in H. discriminate.
Qed.

(** C7: [list_tasks()] returns every task of the store, in storage order;
    [list_tasks(s)] returns, in storage order, exactly the tasks whose
    status is [s]: every task returned has status [s] and every task with
    status [s] is returned.  Neither call changes the state. *)
Theorem list_tasks_spec (w : world) :
  list_tasks None w = (Ok (values (tasks w)), w) /\
  forall s : string,
    exists r : list task,
      list_tasks (Some s) w = (Ok r, w) /\
      r = filter (fun t => String.eqb (status t) s) (values (tasks w)) /\
      (forall t, In t r <-> In t (values (tasks w)) /\ status t = s).
Proof.
  split; [reflexivity|].
  intros s. exists (comprehension s (values (tasks w))).
  split; [reflexivity|]. rewrite comprehension_filter.
  split; [reflexivity|].
  intros t. rewrite filter_In. now rewrite String.eqb_eq.
Qed.

(** C10: when no task of the store has status [s] (whatever string [s]
    is: the filter is not checked against the three statuses),
    [list_tasks(s)] returns the empty list and raises nothing. *)
Theorem list_tasks_unmatched_filter (w : world) (s : string) :
  (forall t, In t (values (tasks w)) -> status t <> s) ->
  list_tasks (Some s) w = (Ok [], w).
Proof.
  intros H. unfold list_tasks, bind, get_tasks, ret.
  rewrite comprehension_filter.
  induction (values (tasks w)) as [|t vs IH]; simpl; [reflexivity|].
  destruct (String.eqb_spec (status t) s) as [E|_].
  - exfalso. apply (H t); [now left | assumption].
  - apply IH. intros t' I. apply H. now right.
Qed.

Lemma list_tasks_unmatched_filter_witness :
  let w := snd (add_task "t1" "a" (init None)) in
  (forall t, In t (values (tasks w)) -> status t <> "bogus") /\
  list_tasks (Some "bogus") w = (Ok [], w).
Proof.
  intros w.
  assert (H : forall t, In t (values (tasks w)) -> status t <> "bogus").
  { intros t [<-|[]]. discriminate. }
  split; [exact H|].
  exact (list_tasks_unmatched_filter w "bogus" H).
Defined.

Lemma get_set_createdAt (k k' : key) (t t' : task) (d : dict task) :
  get k d = Some t -> createdAt t' = createdAt t ->
  option_map createdAt (get k' (set k t' d))
  = option_map createdAt (get k' d).
Proof.
  intros G C. destruct (key_eq_dec k k') as [<-|N].
  - rewrite get_set_same, G. simpl. now rewrite C.
  - now rewrite get_set_other.
Qed.

(** C9: when [task_id] is a key of [self.tasks], [update_task] returns
    [True]; the task under [task_id] gets the new description and the time
    of the call as [updatedAt] and keeps its [id], [status] and
    [createdAt]; the keys and their order stay, and the task under every
    other key is the same.  Whatever their arguments, [update_task] and
    [mark_task_status] leave the [createdAt] of every task as it was. *)
Theorem update_task_frame
  (w : world) (task_id : Z) (now description : string) (t : task) :
  get (KInt task_id) (tasks w) = Some t ->
  (exists (w' : world) (t' : task),
     update_task now task_id description w = (Ok true, w') /\
     get (KInt task_id) (tasks w') = Some t' /\
     TaskTracker.description t' = description /\
     updatedAt t' = now /\
     id t' = id t /\ status t' = status t /\ createdAt t' = createdAt t /\
     keys (tasks w') = keys (tasks w) /\
     forall k, k <> KInt task_id -> get k (tasks w') = get k (tasks w)) /\
  (forall (now' : string) (j : Z) (d' s' : string) (k : key),
     option_map createdAt (get k (tasks (snd (update_task now' j d' w))))
     = option_map createdAt (get k (tasks w)) /\
     option_map createdAt
       (get k (tasks (snd (mark_task_status now' j s' w))))
     = option_map createdAt (get k (tasks w))).
Proof.
  intros G. split.
  - eexists. exists (with_updatedAt now (with_description description t)).
    split; [apply (update_task_present _ _ _ _ _ G)|]. simpl.
    split; [apply get_set_same|].
    repeat (split; [reflexivity|]).
    split.
    + apply keys_set_mem. unfold mem. now rewrite G.
    + intros k N. apply get_set_other. congruence.
  - intros now' j d' s' k. split.
    + destruct (get (KInt j) (tasks w)) as [u|] eqn:E.
      * rewrite (update_task_present _ _ _ _ _ E). simpl.
        now apply get_set_createdAt with u.
      * now rewrite (update_task_absent _ _ _ _ E).
    + destruct (get (KInt j) (tasks w)) as [u|] eqn:E.
      * destruct (str_in s' statuses) eqn:S.
        -- rewrite (mark_task_status_present _ _ _ _ _ E S). simpl.
           now apply get_set_createdAt with u.
        -- now rewrite (mark_task_status_invalid _ _ _ _ S).
      * now rewrite (mark_task_status_absent _ _ _ _ E).
Qed.

Lemma update_task_frame_witness :
  let w :=
    snd (add_task "t2" "b" (snd (add_task "t1" "a" (init None)))) in
  get (KInt 1) (tasks w) = Some (new_task 1 "t1" "a") /\
  exists (w' : world) (t' : task),
    update_task "t3" 1 "c" w = (Ok true, w') /\
    get (KInt 1) (tasks w') = Some t' /\
    description t' = "c" /\
    updatedAt t' = "t3" /\
    id t' = 1 /\ status t' = "todo" /\ createdAt t' = "t1" /\
    keys (tasks w') = keys (tasks w) /\
    forall k, k <> KInt 1 -> get k (tasks w') = get k (tasks w).
Proof.
  intros w. split; [reflexivity|].
  exact (proj1 (update_task_frame w 1 "t3" "c" (new_task 1 "t1" "a")
                  eq_refl)).
Defined.

(** ** What a restart does to the keys *)

Lemma keys_fold_set {V} (pairs : list (key * V)) :
  forall (d : dict V) (k : key),
    In k (keys (fold_left (fun d kv => set (fst kv) (snd kv) d) pairs d))
    <-> In k (keys d) \/ In k (map fst pairs).
Proof.
  induction pairs as [|[k0 v0] pairs IH]; simpl; intros d k.
  - tauto.
  - rewrite IH, In_keys_set. intuition congruence.
Qed.

Lemma keys_of_pairs {V} (pairs : list (key * V)) (k : key) :
  In k (keys (of_pairs pairs)) <-> In k (map fst pairs).
Proof.
  unfold of_pairs. rewrite keys_fold_set. simpl. tauto.
Qed.

(** [json.load] yields string keys only. *)
Lemma json_load_keys (members : list (string * task)) (k : key) :
  In k (keys (json_load members)) <-> exists s, k = KStr s /\ In s (map fst members).
Proof.
  unfold json_load. rewrite keys_of_pairs, map_map. simpl.
  rewrite in_map_iff. split.
  - intros (m & <- & I). exists (fst m). split; [reflexivity|].
    now apply in_map.
  - intros (s & -> & I). apply in_map_iff in I.
    destruct I as (m & <- & I). now exists m.
Qed.

Lemma json_load_no_int (members : list (string * task)) (i : Z) :
  get (KInt i) (json_load members) = None.
Proof.
  apply mem_false_get. destruct (mem (KInt i) (json_load members)) eqn:E;
    [|reflexivity].
  apply mem_In_keys, json_load_keys in E. destruct E as (s & E & _).
  discriminate.
Qed.

Lemma json_load_has_str (members : list (string * task)) :
  members <> [] -> existsb is_str (keys (json_load members)) = true.
Proof.
  destruct members as [|[s t] members]; [congruence|]. intros _.
  apply existsb_exists. exists (KStr s). split; [|reflexivity].
  apply json_load_keys. exists s. split; [reflexivity | now left].
Qed.

Lemma tasks_restart_saved (w : world) :
  tasks (restart (snd (save_tasks w)))
  = json_load (map (fun kv => (json_key (fst kv), snd kv)) (tasks w)).
Proof. reflexivity. Qed.

(** Once a non-empty store has been saved, [add_task] raises [TypeError]
    in every later process, and so does [get_next_id]. *)
Lemma add_task_after_restart (w : world) (now description : string) :
  tasks w <> [] ->
  let w' := restart (snd (save_tasks w)) in
  get_next_id w' = (Raise TypeError, w') /\
  add_task now description w' = (Raise TypeError, w').
Proof.
  intros N w'.
  assert (S : existsb is_str (keys (tasks w')) = true).
  { unfold w'. rewrite tasks_restart_saved. apply json_load_has_str.
    destruct (tasks w); [congruence | discriminate]. }
  split; [now apply get_next_id_str | now apply add_task_str].
Qed.

(** In a process that loaded its tasks from a JSON object, no integer is a
    key: [update_task], [delete_task] and [mark_task_status] return
    [False] for every id. *)
Lemma no_id_found_after_load
  (members : list (string * task))
  (now description status : string) (i : Z) :
  let w := init (Some (Json_object members)) in
  update_task now i description w = (Ok false, w) /\
  delete_task i w = (Ok false, w) /\
  mark_task_status now i status w = (Ok false, w).
Proof.
  intros w.
  assert (G : get (KInt i) (tasks w) = None) by apply json_load_no_int.
  split; [|split].
  - now apply update_task_absent.
  - now apply delete_task_absent.
  - now apply mark_task_status_absent.
Qed.

(** A store whose keys are strings (one that was loaded) is read back as
    it was written. *)
Lemma set_new {V} (k : key) (v : V) (d : dict V) :
  ~ In k (keys d) -> set k v d = d ++ [(k, v)].
Proof.
  induction d as [|[k0 v0] d IH]; simpl; intros N; [reflexivity|].
  destruct (key_eqb k k0) eqn:E.
  - apply key_eqb_eq in E. subst. tauto.
  - rewrite IH; [reflexivity | tauto].
Qed.

Lemma fold_set_wf {V} (pairs : list (key * V)) :
  forall d : dict V, wf (d ++ pairs) ->
    fold_left (fun d kv => set (fst kv) (snd kv) d) pairs d = d ++ pairs.
Proof.
  unfold wf, keys.
  induction pairs as [|[k v] pairs IH]; simpl; intros d W.
  - now rewrite app_nil_r.
  - rewrite map_app in W. simpl in W.
    rewrite set_new.
    + rewrite IH; rewrite <- app_assoc; [reflexivity|].
      now rewrite map_app.
    + apply NoDup_remove_2 in W. rewrite in_app_iff in W. tauto.
Qed.

Lemma of_pairs_wf {V} (d : dict V) : wf d -> of_pairs d = d.
Proof. intros W. unfold of_pairs. now rewrite fold_set_wf. Qed.

Lemma restart_str_keys (w : world) :
  wf (tasks w) -> forallb is_str (keys (tasks w)) = true ->
  tasks (restart (snd (save_tasks w))) = tasks w.
Proof.
  intros W S. rewrite tasks_restart_saved. unfold json_load.
  rewrite map_map. simpl.
  assert (E : map (fun kv : key * task => (KStr (json_key (fst kv)), snd kv))
                (tasks w) = tasks w).
  { unfold keys in S. clear W.
    induction (tasks w) as [|[[n|s] t] d IH]; simpl in *;
      [reflexivity | discriminate |].
    now rewrite IH. }
  rewrite E. now apply of_pairs_wf.
Qed.

(** ** The store within one process *)

(** [get_next_id] changes nothing. *)
Lemma get_next_id_pure (w : world) : snd (get_next_id w) = w.
Proof. now rewrite get_next_id_unfold. Qed.

(** On a store keyed by integers, [add_task] succeeds: the id it returns
    is the largest key plus 1 (1 on the empty store), it was not a key, and
    the new task is stored under it and written to the file. *)
Lemma add_task_int_keys (w : world) (now description : string) :
  forallb is_int (keys (tasks w)) = true ->
  exists (i : Z) (w' : world),
    add_task now description w = (Ok i, w') /\
    is_max_id (keys (tasks w)) (i - 1) /\
    get (KInt i) (tasks w) = None /\
    get (KInt i) (tasks w') = Some (new_task i now description) /\
    (forall k, k <> KInt i -> get k (tasks w') = get k (tasks w)) /\
    file w' = Some (json_dump (tasks w')).
Proof.
  intros H. destruct (add_task_ints now description w H) as (m & B & E).
  exists (m + 1). eexists. split; [exact E|]. simpl.
  replace (m + 1 - 1) with m by lia.
  split; [assumption|]. split; [|split; [|split]].
  - apply mem_false_get.
    destruct (mem (KInt (m + 1)) (tasks w)) eqn:M; [|reflexivity].
    apply mem_In_keys in M. apply (is_max_id_bound _ _ _ B) in M. lia.
  - apply get_set_same.
  - intros k N. apply get_set_other. congruence.
  - reflexivity.
Qed.

(** Without a reload, every key stays the [id] of its task. *)
Lemma keys_match_step (w : world) (now description status : string)
  (task_id : Z) :
  keys_match (tasks w) ->
  keys_match (tasks (snd (add_task now description w))) /\
  keys_match (tasks (snd (update_task now task_id description w))) /\
  keys_match (tasks (snd (delete_task task_id w))) /\
  keys_match (tasks (snd (mark_task_status now task_id status w))).
Proof.
  intros K.
  assert (S : forall t t', get (KInt task_id) (tasks w) = Some t ->
    id t' = id t -> keys_match (set (KInt task_id) t' (tasks w))).
  { intros t t' G I k u Hu. apply In_set in Hu.
    destruct Hu as [[-> ->]|Hu]; [|auto].
    rewrite I. apply K. now apply get_In. }
  split; [|split; [|split]].
  - rewrite add_task_unfold.
    destruct (get_next_id w) as [[i|e] w'] eqn:E; simpl.
    + intros k u Hu. apply In_set in Hu.
      destruct Hu as [[-> ->]|Hu]; [reflexivity | auto].
    + rewrite get_next_id_unfold in E. now injection E as _ <-.
  - destruct (get (KInt task_id) (tasks w)) as [t|] eqn:E.
    + rewrite (update_task_present _ _ _ _ _ E). simpl. now apply S with t.
    + now rewrite (update_task_absent _ _ _ _ E).
  - destruct (delete_task_cases task_id w) as [C|C]; rewrite C; simpl;
      [assumption|].
    intros k u Hu. apply In_del in Hu. auto.
  - destruct (get (KInt task_id) (tasks w)) as [t|] eqn:E.
    + destruct (str_in status statuses) eqn:V.
      * rewrite (mark_task_status_present _ _ _ _ _ E V). simpl.
        now apply S with t.
      * now rewrite (mark_task_status_invalid _ _ _ _ V).
    + now rewrite (mark_task_status_absent _ _ _ _ E).
Qed.

(** ** The store across a restart *)

(** C2 fails on the code: the store holding the task of one [add_task]
    is saved under the member name ["1"] and loaded back under the key
    ["1"], not [1]; [update_task(1, ...)], [delete_task(1)] and
    [mark_task_status(1, ...)] succeed on the store that was saved and
    return [False] on the one loaded, and [get_next_id] returns 2 on the
    first and raises [TypeError] on the second. *)
Theorem reload_changes_int_keys :
  let w := snd (add_task "t1" "a" (init None)) in
  let w' := restart (snd (save_tasks w)) in
  tasks w = [(KInt 1, new_task 1 "t1" "a")] /\
  tasks w' = [(KStr "1", new_task 1 "t1" "a")] /\
  tasks w' <> tasks w /\
  fst (update_task "t2" 1 "b" w) = Ok true /\
  fst (update_task "t2" 1 "b" w') = Ok false /\
  fst (delete_task 1 w) = Ok true /\
  fst (delete_task 1 w') = Ok false /\
  fst (mark_task_status "t2" 1 "done" w) = Ok true /\
  fst (mark_task_status "t2" 1 "done" w') = Ok false /\
  fst (get_next_id w) = Ok 2 /\
  fst (get_next_id w') = Raise TypeError.
Proof.
  cbv zeta. repeat (split; [reflexivity|]).
  split; [discriminate|].
  repeat (split; [reflexivity|]). reflexivity.
Qed.

(** C3 fails on the code: after [add_task] and [load_tasks] the only key
    is the string ["1"] while the [id] of the task under it is the
    integer [1]. *)
Theorem loaded_key_is_not_the_id :
  let w := snd (load_tasks (snd (add_task "t1" "a" (init None)))) in
  reachable w /\
  tasks w = [(KStr "1", new_task 1 "t1" "a")] /\
  ~ keys_match (tasks w).
Proof.
  cbv zeta. split; [|split].
  - apply reach_load, reach_add, reach_init.
  - reflexivity.
  - intros K.
    specialize (K (KStr "1") (new_task 1 "t1" "a") (or_introl eq_refl)).
    discriminate.
Qed.

(** C4 fails on the code: in the process that follows one [add_task],
    [add_task] raises [TypeError] and adds nothing. *)
Theorem add_task_raises_after_restart :
  let w := restart (snd (add_task "t1" "a" (init None))) in
  file w = Some (Json_object [("1", new_task 1 "t1" "a")]) /\
  tasks w = [(KStr "1", new_task 1 "t1" "a")] /\
  add_task "t2" "b" w = (Raise TypeError, w).
Proof. cbv zeta. repeat split. Qed.

(** C8 fails on the code: in the process that follows two [add_task]
    calls the keys are ["1"] and ["2"], and [get_next_id] raises
    [TypeError] instead of returning 3. *)
Theorem get_next_id_raises_after_restart :
  let w0 := snd (add_task "t2" "b" (snd (add_task "t1" "a" (init None)))) in
  let w := restart w0 in
  get_next_id w0 = (Ok 3, w0) /\
  keys (tasks w) = [KStr "1"; KStr "2"] /\
  get_next_id w = (Raise TypeError, w).
Proof. cbv zeta. repeat split. Qed.

(** ** More on the store within one process *)

Import Cli Process.

Lemma del_app_new {V} (k : key) (v : V) (d : dict V) :
  ~ In k (keys d) -> del k (d ++ [(k, v)]) = d.
Proof.
  induction d as [|[k0 v0] d IH]; simpl; intros N.
  - now rewrite key_eqb_refl.
  - destruct (key_eqb k k0) eqn:E.
    + apply key_eqb_eq in E. subst. tauto.
    + rewrite IH; [reflexivity | tauto].
Qed.

Lemma next_id_not_a_key (items : list key) (m : Z) :
  is_max_id items m -> ~ In (KInt (m + 1)) items.
Proof.
  intros B I. apply (is_max_id_bound _ _ _ B) in I. lia.
Qed.

Lemma keys_app {V} (d1 d2 : dict V) : keys (d1 ++ d2) = keys d1 ++ keys d2.
Proof. apply map_app. Qed.

Lemma is_max_id_app (items : list key) (m : Z) :
  forallb is_int items = true ->
  is_max_id items m -> is_max_id (items ++ [KInt (m + 1)]) (m + 1).
Proof.
  intros A B.
  assert (G : In (KInt (m + 1)) (items ++ [KInt (m + 1)]) /\
              forall n, In (KInt n) (items ++ [KInt (m + 1)]) -> n <= m + 1).
  { split.
    - apply in_app_iff. right. now left.
    - intros n Hn. apply in_app_iff in Hn. destruct Hn as [Hn|[[= <-]|[]]].
      + apply (is_max_id_bound _ _ _ B) in Hn. lia.
      + lia. }
  unfold is_max_id. destruct (items ++ [KInt (m + 1)]) eqn:E; [|exact G].
  destruct items; discriminate.
Qed.

(** X1: on a store whose keys are all integers [add_task] succeeds.  The
    id it returns is the largest key plus 1 (1 on the empty store) and was
    not a key; the new task goes last, after the tasks already there,
    which stay as they were and in their order; the file is rewritten
    once with the new store. *)
Theorem add_task_appends (w : world) (now description : string) :
  forallb is_int (keys (tasks w)) = true ->
  exists (i : Z) (w' : world),
    add_task now description w = (Ok i, w') /\
    is_max_id (keys (tasks w)) (i - 1) /\
    get (KInt i) (tasks w) = None /\
    tasks w' = tasks w ++ [(KInt i, new_task i now description)] /\
    written w w'.
Proof.
  intros H. destruct (add_task_ints now description w H) as (m & B & E).
  exists (m + 1). eexists. split; [exact E|]. simpl.
  replace (m + 1 - 1) with m by lia.
  pose proof (next_id_not_a_key _ _ B) as N.
  split; [assumption|]. split; [|split].
  - apply mem_false_get.
    destruct (mem (KInt (m + 1)) (tasks w)) eqn:M; [|reflexivity].
    apply mem_In_keys in M. contradiction.
  - now apply set_new.
  - split; reflexivity.
Qed.

Lemma add_task_appends_witness :
  let w := snd (add_task "t1" "a" (init None)) in
  forallb is_int (keys (tasks w)) = true /\
  exists (i : Z) (w' : world),
    add_task "t2" "b" w = (Ok i, w') /\
    is_max_id (keys (tasks w)) (i - 1) /\
    get (KInt i) (tasks w) = None /\
    tasks w' = tasks w ++ [(KInt i, new_task i "t2" "b")] /\
    written w w'.
Proof.
  intros w. split; [reflexivity|].
  exact (add_task_appends w "t2" "b" eq_refl).
Defined.

(** X2: [get_next_id] raises [TypeError] exactly when some key of the
    store is a string, and so does [add_task]; the store, the file and the
    number of writes are then what they were. *)
Theorem string_key_blocks_new_ids (w : world) (now description : string) :
  (existsb is_str (keys (tasks w)) = true <->
   get_next_id w = (Raise TypeError, w)) /\
  (existsb is_str (keys (tasks w)) = true <->
   add_task now description w = (Raise TypeError, w)) /\
  (forall e w', add_task now description w = (Raise e, w') ->
     e = TypeError /\ w' = w).
Proof.
  assert (A : existsb is_str (keys (tasks w)) = true <->
              get_next_id w = (Raise TypeError, w)).
  { split; [apply get_next_id_str|]. intros E.
    destruct (ints_or_str (keys (tasks w))) as [I|S]; [|assumption].
    destruct (get_next_id_ints w I) as (m & E' & _). congruence. }
  split; [exact A|]. split.
  - rewrite A, add_task_unfold. split.
    + now intros ->.
    + destruct (get_next_id w) as [[i|e] w1] eqn:E; [discriminate|].
      rewrite get_next_id_unfold in E. injection E as E <-.
      now intros [= ->].
  - intros e w'. rewrite add_task_unfold.
    destruct (get_next_id w) as [[i|e1] w1] eqn:E; [discriminate|].
    intros [= <- <-].
    destruct (ints_or_str (keys (tasks w))) as [I|S].
    + destruct (get_next_id_ints w I) as (m & E' & _). congruence.
    + rewrite (get_next_id_str w S) in E. now injection E as <- <-.
Qed.

(** X3: on a store whose keys are all integers, the id of a task that is
    added and then deleted is handed out again by the next [add_task]:
    the delete succeeds, restores the tasks of before the add, and the
    second add returns the id of the first. *)
Theorem add_delete_add_same_id
  (w : world) (now1 description1 now2 description2 : string) :
  forallb is_int (keys (tasks w)) = true ->
  exists (i : Z) (w1 w2 w3 : world),
    add_task now1 description1 w = (Ok i, w1) /\
    delete_task i w1 = (Ok true, w2) /\
    tasks w2 = tasks w /\
    add_task now2 description2 w2 = (Ok i, w3).
Proof.
  intros H. destruct (add_task_ints now1 description1 w H) as (m & B & E).
  pose proof (next_id_not_a_key _ _ B) as N.
  exists (m + 1). eexists. eexists. eexists.
  split; [exact E|].
  rewrite set_new by assumption.
  split; [|split].
  - apply delete_task_present with (new_task (m + 1) now1 description1).
    simpl. rewrite <- (set_new _ _ _ N). apply get_set_same.
  - simpl. now apply del_app_new.
  - simpl. rewrite del_app_new by assumption.
    set (w2 := saved _ (tasks w)).
    destruct (add_task_ints now2 description2 w2 H) as (m' & B' & E').
    simpl in B'. rewrite (is_max_id_unique _ _ _ B' B) in E'. exact E'.
Qed.

Lemma add_delete_add_same_id_witness :
  let w := snd (add_task "t1" "a" (init None)) in
  forallb is_int (keys (tasks w)) = true /\
  exists (i : Z) (w1 w2 w3 : world),
    add_task "t2" "b" w = (Ok i, w1) /\
    delete_task i w1 = (Ok true, w2) /\
    tasks w2 = tasks w /\
    add_task "t3" "c" w2 = (Ok i, w3).
Proof.
  intros w. split; [reflexivity|].
  exact (add_delete_add_same_id w "t2" "b" "t3" "c" eq_refl).
Defined.

(** X4: every operation either writes the whole store once, so that the
    file is the dump of the tasks in memory, or leaves the tasks, the file
    and the number of writes as they were.  [add_task] writes when it
    returns an id; [update_task], [delete_task] and [mark_task_status]
    never raise, write when they return [True] and change nothing when
    they return [False]. *)
Theorem mutation_is_saved
  (w : world) (now description status : string) (task_id : Z) :
  (forall r w', add_task now description w = (r, w') ->
     match r with Ok _ => written w w' | Raise _ => w' = w end) /\
  (forall r w', update_task now task_id description w = (r, w') ->
     match r with
     | Ok true => written w w'
     | Ok false => w' = w
     | Raise _ => False
     end) /\
  (forall r w', delete_task task_id w = (r, w') ->
     match r with
     | Ok true => written w w'
     | Ok false => w' = w
     | Raise _ => False
     end) /\
  (forall r w', mark_task_status now task_id status w = (r, w') ->
     match r with
     | Ok true => written w w'
     | Ok false => w' = w
     | Raise _ => False
     end).
Proof.
  split; [|split; [|split]]; intros r w'.
  - rewrite add_task_unfold.
    destruct (get_next_id w) as [[i|e] w1] eqn:E; intros [= <- <-].
    + split; reflexivity.
    + rewrite get_next_id_unfold in E. now injection E as _ <-.
  - destruct (get (KInt task_id) (tasks w)) as [t|] eqn:E.
    + rewrite (update_task_present _ _ _ _ _ E). intros [= <- <-].
      split; reflexivity.
    + rewrite (update_task_absent _ _ _ _ E). now intros [= <- <-].
  - destruct (delete_task_cases task_id w) as [C|C]; rewrite C;
      intros [= <- <-]; [reflexivity | split; reflexivity].
  - destruct (get (KInt task_id) (tasks w)) as [t|] eqn:E.
    + destruct (str_in status statuses) eqn:V.
      * rewrite (mark_task_status_present _ _ _ _ _ E V).
        intros [= <- <-]. split; reflexivity.
      * rewrite (mark_task_status_invalid _ _ _ _ V). now intros [= <- <-].
    + rewrite (mark_task_status_absent _ _ _ _ E). now intros [= <- <-].
Qed.

Lemma get_split {V} (k : key) (v : V) (d : dict V) :
  get k d = Some v ->
  exists l1 l2,
    d = l1 ++ (k, v) :: l2 /\ ~ In k (keys l1) /\ del k d = l1 ++ l2.
Proof.
  induction d as [|[k0 v0] d IH]; simpl; [discriminate|].
  destruct (key_eqb k k0) eqn:E.
  - apply key_eqb_eq in E. subst k0. intros [= ->].
    exists [], d. simpl. tauto.
  - intros G. destruct (IH G) as (l1 & l2 & -> & N & D).
    exists ((k0, v0) :: l1), l2. simpl. rewrite D.
    split; [reflexivity|]. split; [|reflexivity].
    apply key_eqb_neq in E. intros [H|H]; [congruence | contradiction].
Qed.

(** X5: when [task_id] is a key, [delete_task] returns [True] and removes
    the entry under that key and nothing else: the entries before it and
    after it stay, in their order, and the task under every other key is
    the same. *)
Theorem delete_task_frame (w : world) (task_id : Z) (t : task) :
  get (KInt task_id) (tasks w) = Some t ->
  exists (w' : world) (before rest : dict task),
    delete_task task_id w = (Ok true, w') /\
    tasks w = before ++ (KInt task_id, t) :: rest /\
    ~ In (KInt task_id) (keys before) /\
    tasks w' = before ++ rest /\
    forall k, k <> KInt task_id -> get k (tasks w') = get k (tasks w).
Proof.
  intros G. destruct (get_split _ _ _ G) as (l1 & l2 & E & N & D).
  eexists. exists l1, l2.
  split; [apply (delete_task_present _ _ _ G)|]. simpl.
  split; [assumption|]. split; [assumption|]. split; [assumption|].
  intros k Hk. apply get_del_other. congruence.
Qed.

Lemma delete_task_frame_witness :
  let w :=
    snd (add_task "t2" "b" (snd (add_task "t1" "a" (init None)))) in
  get (KInt 1) (tasks w) = Some (new_task 1 "t1" "a") /\
  exists (w' : world) (before rest : dict task),
    delete_task 1 w = (Ok true, w') /\
    tasks w = before ++ (KInt 1, new_task 1 "t1" "a") :: rest /\
    ~ In (KInt 1) (keys before) /\
    tasks w' = before ++ rest /\
    forall k, k <> KInt 1 -> get k (tasks w') = get k (tasks w).
Proof.
  intros w. split; [reflexivity|].
  exact (delete_task_frame w 1 (new_task 1 "t1" "a") eq_refl).
Defined.

(** X6: when [task_id] is a key and [status] is one of the three
    statuses, [mark_task_status] returns [True] whatever the status of the
    task was; the task keeps its [id], [description] and [createdAt], the
    keys and their order stay, and the task under every other key is the
    same. *)
Theorem mark_task_status_frame
  (w : world) (task_id : Z) (now status : string) (t : task) :
  get (KInt task_id) (tasks w) = Some t ->
  status = "todo" \/ status = "in-progress" \/ status = "done" ->
  exists (w' : world) (t' : task),
    mark_task_status now task_id status w = (Ok true, w') /\
    get (KInt task_id) (tasks w') = Some t' /\
    TaskTracker.status t' = status /\ updatedAt t' = now /\
    id t' = id t /\ description t' = description t /\
    createdAt t' = createdAt t /\
    keys (tasks w') = keys (tasks w) /\
    forall k, k <> KInt task_id -> get k (tasks w') = get k (tasks w).
Proof.
  intros G V. apply str_in_statuses in V.
  eexists. exists (with_updatedAt now (with_status status t)).
  split; [apply (mark_task_status_present _ _ _ _ _ G V)|]. simpl.
  split; [apply get_set_same|].
  repeat (split; [reflexivity|]).
  split.
  - apply keys_set_mem. unfold mem. now rewrite G.
  - intros k N. apply get_set_other. congruence.
Qed.

Lemma mark_task_status_frame_witness :
  let w0 := snd (add_task "t1" "a" (init None)) in
  let w := snd (mark_task_status "t2" 1 "done" w0) in
  get (KInt 1) (tasks w)
  = Some (with_updatedAt "t2" (with_status "done" (new_task 1 "t1" "a"))) /\
  exists (w' : world) (t' : task),
    mark_task_status "t3" 1 "todo" w = (Ok true, w') /\
    get (KInt 1) (tasks w') = Some t' /\
    status t' = "todo" /\ updatedAt t' = "t3" /\
    id t' = 1 /\ description t' = "a" /\
    createdAt t' = "t1" /\
    keys (tasks w') = keys (tasks w) /\
    forall k, k <> KInt 1 -> get k (tasks w') = get k (tasks w).
Proof.
  intros w0 w. split; [reflexivity|].
  exact (mark_task_status_frame w 1 "t3" "todo" _ eq_refl
           (or_introl eq_refl)).
Defined.

(** ** More on the store across a restart *)

Lemma str_inj (a b : Z) : str a = str b -> a = b.
Proof.
  unfold str. intros H.
  assert (N : forall n, Z.to_int n <> Decimal.Pos Decimal.Nil /\
                        Z.to_int n <> Decimal.Neg Decimal.Nil).
  { intros [|p|p]; simpl; split; try discriminate;
      intros [= E]; now apply Unsigned.to_uint_nonnil in E. }
  apply (f_equal NilZero.int_of_string) in H.
  rewrite !NilZero.isi in H by apply N.
  injection H as H. now apply DecimalZ.to_int_inj.
Qed.

Lemma json_names_distinct (d : dict task) :
  wf d -> forallb is_int (keys d) = true ->
  NoDup (map (fun kv : key * task => KStr (json_key (fst kv))) d).
Proof.
  unfold wf, keys. induction d as [|[[n|s] t] d IH]; simpl; intros W A;
    [constructor | | discriminate].
  inversion W as [|? ? Hn Wd]; subst. constructor; [|auto].
  intros I. apply Hn. apply in_map_iff in I.
  destruct I as ([k u] & E & I). simpl in E.
  assert (K : is_int k = true).
  { rewrite forallb_forall in A. apply A.
    change k with (fst (k, u)). now apply in_map. }
  destruct k as [n'|s']; [|discriminate]. simpl in E.
  injection E as E. apply str_inj in E. subst n'.
  change (KInt n) with (fst (KInt n, u)). now apply in_map.
Qed.

Lemma list_tasks_values (status : option string) (w : world) :
  fst (list_tasks status w)
  = Ok match status with
       | None => values (tasks w)
       | Some s => comprehension s (values (tasks w))
       end.
Proof. now destruct status. Qed.

Lemma tasks_restart_int_keys (w : world) :
  wf (tasks w) -> forallb is_int (keys (tasks w)) = true ->
  tasks (restart (snd (save_tasks w)))
  = map (fun kv => (KStr (json_key (fst kv)), snd kv)) (tasks w).
Proof.
  intros W A.
  rewrite tasks_restart_saved. unfold json_load. rewrite map_map. simpl.
  apply of_pairs_wf. unfold wf, keys. rewrite map_map. simpl.
  now apply json_names_distinct.
Qed.

Lemma values_restart_int_keys (w : world) :
  wf (tasks w) -> forallb is_int (keys (tasks w)) = true ->
  values (tasks (restart (snd (save_tasks w)))) = values (tasks w).
Proof.
  intros W A. rewrite tasks_restart_int_keys by assumption.
  unfold values. now rewrite map_map.
Qed.

(** X7: a store with integer keys, saved and loaded by a later process,
    comes back with every key [n] replaced by the string [str(n)] and
    with the same tasks in the same order; [list_tasks] returns in the
    later process what it returned before, with or without a filter. *)
Theorem restart_keeps_tasks (w : world) :
  wf (tasks w) -> forallb is_int (keys (tasks w)) = true ->
  tasks (restart (snd (save_tasks w)))
  = map (fun kv => (KStr (json_key (fst kv)), snd kv)) (tasks w) /\
  values (tasks (restart (snd (save_tasks w)))) = values (tasks w) /\
  forall status : option string,
    fst (list_tasks status (restart (snd (save_tasks w))))
    = fst (list_tasks status w).
Proof.
  intros W A.
  pose proof (tasks_restart_int_keys w W A) as E.
  pose proof (values_restart_int_keys w W A) as V.
  split; [exact E|]. split; [exact V|].
  intros status. now rewrite !list_tasks_values, V.
Qed.

Lemma restart_keeps_tasks_witness :
  let w :=
    snd (add_task "t2" "b" (snd (add_task "t1" "a" (init None)))) in
  (wf (tasks w) /\ forallb is_int (keys (tasks w)) = true) /\
  tasks (restart (snd (save_tasks w)))
  = map (fun kv => (KStr (json_key (fst kv)), snd kv)) (tasks w) /\
  values (tasks (restart (snd (save_tasks w)))) = values (tasks w) /\
  forall status : option string,
    fst (list_tasks status (restart (snd (save_tasks w))))
    = fst (list_tasks status w).
Proof.
  intros w.
  assert (W : wf (tasks w)).
  { repeat constructor; simpl; intuition discriminate. }
  split; [split; [exact W | reflexivity]|].
  exact (restart_keeps_tasks w W eq_refl).
Defined.

Lemma init_no_int (f : option file_content) (i : Z) :
  get (KInt i) (tasks (init f)) = None.
Proof.
  destruct f as [[|members]|]; try reflexivity. apply json_load_no_int.
Qed.

(** X8: in a process that has just started, whatever the file it found,
    no integer is a key of the store: [update_task], [delete_task] and
    [mark_task_status] return [False] for every id and change nothing. *)
Theorem started_store_finds_no_id
  (f : option file_content) (now description status : string)
  (task_id : Z) :
  update_task now task_id description (init f) = (Ok false, init f) /\
  delete_task task_id (init f) = (Ok false, init f) /\
  mark_task_status now task_id status (init f) = (Ok false, init f).
Proof.
  pose proof (init_no_int f task_id) as G. split; [|split].
  - now apply update_task_absent.
  - now apply delete_task_absent.
  - now apply mark_task_status_absent.
Qed.

Lemma init_cases (f : option file_content) :
  match f with
  | Some (Json_object (_ :: _)) =>
      existsb is_str (keys (tasks (init f))) = true
  | _ => tasks (init f) = []
  end.
Proof.
  destruct f as [[|[|m members]]|]; try reflexivity.
  apply (json_load_has_str (m :: members)). discriminate.
Qed.

(** X9: in a process that has just started, [add_task] returns the id 1
    when there was no file, a file that is not JSON, or an empty object;
    when the file holds at least one task it raises [TypeError] and
    changes nothing. *)
Theorem add_task_in_started_process
  (f : option file_content) (now description : string) :
  match f with
  | Some (Json_object (_ :: _)) =>
      add_task now description (init f) = (Raise TypeError, init f)
  | _ =>
      add_task now description (init f)
      = (Ok 1, saved (init f) [(KInt 1, new_task 1 now description)])
  end.
Proof.
  pose proof (init_cases f) as C.
  destruct f as [[|[|m members]]|]; try reflexivity.
  now apply add_task_str.
Qed.

(** What an operation does to the tasks: nothing, an assignment under an
    integer key, or the removal of an integer key. *)
Lemma step_tasks (w : world) (now description status : string) (i : Z) :
  forall w',
    w' = snd (add_task now description w) \/
    w' = snd (update_task now i description w) \/
    w' = snd (delete_task i w) \/
    w' = snd (mark_task_status now i status w) ->
    tasks w' = tasks w \/
    (exists j t, tasks w' = set (KInt j) t (tasks w)) \/
    (exists j, tasks w' = del (KInt j) (tasks w)).
Proof.
  intros w' [ -> | [ -> | [ -> | -> ] ] ].
  - rewrite add_task_unfold.
    destruct (get_next_id w) as [[j|e] w1] eqn:E; simpl.
    + right. left. eauto.
    + left. rewrite get_next_id_unfold in E. now injection E as _ <-.
  - destruct (get (KInt i) (tasks w)) as [t|] eqn:E.
    + rewrite (update_task_present _ _ _ _ _ E). right. left. simpl. eauto.
    + rewrite (update_task_absent _ _ _ _ E). now left.
  - destruct (delete_task_cases i w) as [C|C]; rewrite C; simpl;
      [now left | right; right; eauto].
  - destruct (get (KInt i) (tasks w)) as [t|] eqn:E.
    + destruct (str_in status statuses) eqn:V.
      * rewrite (mark_task_status_present _ _ _ _ _ E V).
        right. left. simpl. eauto.
      * rewrite (mark_task_status_invalid _ _ _ _ V). now left.
    + rewrite (mark_task_status_absent _ _ _ _ E). now left.
Qed.

Lemma step_keeps_ints (w w' : world) :
  tasks w' = tasks w \/
  (exists j t, tasks w' = set (KInt j) t (tasks w)) \/
  (exists j, tasks w' = del (KInt j) (tasks w)) ->
  forallb is_int (keys (tasks w)) = true /\ wf (tasks w) ->
  forallb is_int (keys (tasks w')) = true /\ wf (tasks w').
Proof.
  intros [ -> | [ (j & t & ->) | (j & ->) ] ] [A W]; [tauto | |].
  - split; [now apply ints_set | now apply wf_set].
  - split; [now apply ints_del | now apply wf_del].
Qed.

(** X10: in a process that found no task when it started, every state
    reached by [add_task], [update_task], [delete_task] and
    [mark_task_status] has integer keys only, each the [id] of the task
    under it and none twice, and [add_task] succeeds in it. *)
Theorem in_process_invariant (w : world) :
  in_process w ->
  keys_match (tasks w) /\
  forallb is_int (keys (tasks w)) = true /\
  wf (tasks w) /\
  forall now description : string,
    exists (i : Z) (w' : world), add_task now description w = (Ok i, w').
Proof.
  intros P.
  assert (G : keys_match (tasks w) /\
              forallb is_int (keys (tasks w)) = true /\ wf (tasks w)).
  { induction P as
      [f E|w now d P IH|w now i d P IH|w i P IH|w now i s P IH].
    - rewrite E. split; [intros k t []|]. split; [reflexivity|constructor].
    - destruct IH as (K & AW). split.
      + apply (keys_match_step w now d "" 0 K).
      + apply (step_keeps_ints w); [|exact AW].
        apply (step_tasks w now d "" 0). now left.
    - destruct IH as (K & AW). split.
      + apply (keys_match_step w now d "" i K).
      + apply (step_keeps_ints w); [|exact AW].
        apply (step_tasks w now d "" i). right. now left.
    - destruct IH as (K & AW). split.
      + apply (keys_match_step w "" "" "" i K).
      + apply (step_keeps_ints w); [|exact AW].
        apply (step_tasks w "" "" "" i). right. right. now left.
    - destruct IH as (K & AW). split.
      + apply (keys_match_step w now "" s i K).
      + apply (step_keeps_ints w); [|exact AW].
        apply (step_tasks w now "" s i). right. right. now right. }
  destruct G as (K & A & W). repeat (split; [assumption|]).
  intros now d. destruct (add_task_ints now d w A) as (m & _ & E). eauto.
Qed.

Lemma in_process_invariant_witness :
  let w := snd (delete_task 1 (snd (add_task "t1" "a" (init None)))) in
  in_process w /\
  keys_match (tasks w) /\
  forallb is_int (keys (tasks w)) = true /\
  wf (tasks w) /\
  forall now description : string,
    exists (i : Z) (w' : world), add_task now description w = (Ok i, w').
Proof.
  intros w.
  assert (P : in_process w).
  { apply proc_delete, proc_add, (proc_init None). reflexivity. }
  split; [exact P|]. exact (in_process_invariant w P).
Defined.

(** ** The command line *)

Lemma init_file (f : option file_content) :
  file (init f) = f /\ writes (init f) = 0%nat.
Proof. destruct f as [[|members]|]; split; reflexivity. Qed.

Lemma main_run (rt : runtime) (now : string) (argv : list string)
  (f : option file_content) :
  (2 <= List.length argv)%nat ->
  main rt now argv f
  = finish rt (load_message f)
      (dispatch rt now (lower rt (arg 1 argv)) argv (init f)).
Proof.
  intros L. unfold main. apply Nat.ltb_ge in L. now rewrite L.
Qed.

(** The branches on the store of a process that has just started. *)
Lemma command_add_started (now : string) (argv : list string)
  (f : option file_content) :
  command_add now argv (init f)
  = if (List.length argv <? 3)%nat then
      (SystemExit 1, ["Error: Task description required"], init f)
    else
      match f with
      | Some (Json_object (_ :: _)) => (Exception TypeError, [], init f)
      | _ =>
          (Returned, ["Task added successfully (ID: 1)"],
           saved (init f) [(KInt 1, new_task 1 now (arg 2 argv))])
      end.
Proof.
  unfold command_add. destruct (List.length argv <? 3)%nat; [reflexivity|].
  pose proof (init_cases f) as C.
  destruct f as [[|[|m members]]|]; try reflexivity.
  now rewrite add_task_str.
Qed.

Lemma command_update_started (rt : runtime) (now : string)
  (argv : list string) (f : option file_content) :
  command_update rt now argv (init f)
  = if (List.length argv <? 4)%nat then
      (SystemExit 1, ["Error: Task ID and new description required"],
       init f)
    else
      match int rt (arg 2 argv) with
      | inr message => (ValueError message, [], init f)
      | inl task_id => (Returned, [not_found task_id], init f)
      end.
Proof.
  unfold command_update. destruct (List.length argv <? 4)%nat; [reflexivity|].
  destruct (int rt (arg 2 argv)) as [i|m]; [|reflexivity].
  now rewrite update_task_absent by apply init_no_int.
Qed.

Lemma command_delete_started (rt : runtime) (argv : list string)
  (f : option file_content) :
  command_delete rt argv (init f)
  = if (List.length argv <? 3)%nat then
      (SystemExit 1, ["Error: Task ID required"], init f)
    else
      match int rt (arg 2 argv) with
      | inr message => (ValueError message, [], init f)
      | inl task_id => (Returned, [not_found task_id], init f)
      end.
Proof.
  unfold command_delete. destruct (List.length argv <? 3)%nat; [reflexivity|].
  destruct (int rt (arg 2 argv)) as [i|m]; [|reflexivity].
  now rewrite delete_task_absent by apply init_no_int.
Qed.

Lemma command_mark_started (rt : runtime) (now status wording : string)
  (argv : list string) (f : option file_content) :
  command_mark rt now status wording argv (init f)
  = if (List.length argv <? 3)%nat then
      (SystemExit 1, ["Error: Task ID required"], init f)
    else
      match int rt (arg 2 argv) with
      | inr message => (ValueError message, [], init f)
      | inl task_id => (Returned, [not_found task_id], init f)
      end.
Proof.
  unfold command_mark. destruct (List.length argv <? 3)%nat; [reflexivity|].
  destruct (int rt (arg 2 argv)) as [i|m]; [|reflexivity].
  now rewrite mark_task_status_absent by apply init_no_int.
Qed.

(** Every branch but a successful [add] leaves the state of the start. *)
Lemma dispatch_started (rt : runtime) (now command : string)
  (argv : list string) (f : option file_content) :
  snd (dispatch rt now command argv (init f)) = init f \/
  (command = "add" /\ (3 <= List.length argv)%nat /\ tasks (init f) = [] /\
   dispatch rt now command argv (init f)
   = (Returned, ["Task added successfully (ID: 1)"],
      saved (init f) [(KInt 1, new_task 1 now (arg 2 argv))])).
Proof.
  unfold dispatch.
  destruct (String.eqb_spec command "add") as [->|_].
  { rewrite command_add_started.
    destruct (List.length argv <? 3)%nat eqn:L; [now left|].
    apply Nat.ltb_ge in L. pose proof (init_cases f) as C.
    destruct f as [[|[|m members]]|]; try (now left);
      right; repeat split; assumption. }
  left.
  destruct (String.eqb command "update").
  { rewrite command_update_started.
    destruct (List.length argv <? 4)%nat; [reflexivity|].
    now destruct (int rt (arg 2 argv)). }
  destruct (String.eqb command "delete").
  { rewrite command_delete_started.
    destruct (List.length argv <? 3)%nat; [reflexivity|].
    now destruct (int rt (arg 2 argv)). }
  destruct (String.eqb command "mark-in-progress").
  { rewrite command_mark_started.
    destruct (List.length argv <? 3)%nat; [reflexivity|].
    now destruct (int rt (arg 2 argv)). }
  destruct (String.eqb command "mark-done").
  { rewrite command_mark_started.
    destruct (List.length argv <? 3)%nat; [reflexivity|].
    now destruct (int rt (arg 2 argv)). }
  destruct (String.eqb command "list"); [|reflexivity].
  unfold command_list. now destruct (2 <? List.length argv)%nat.
Qed.

Lemma finish_disk (rt : runtime) (loaded : list string) (b : branch) :
  disk (finish rt loaded b) = file (snd b) /\
  disk_writes (finish rt loaded b) = writes (snd b).
Proof. destruct b as [[[| | |] out] w]; split; reflexivity. Qed.


(** X12: a file that holds at least one task is never changed by [main],
    whatever the command line: no task can be added, updated, deleted or
    marked by a later run of the program. *)
Theorem main_keeps_file_with_tasks
  (rt : runtime) (now : string) (argv : list string)
  (m : string * task) (members : list (string * task)) :
  disk (main rt now argv (Some (Json_object (m :: members))))
  = Some (Json_object (m :: members)) /\
  disk_writes (main rt now argv (Some (Json_object (m :: members)))) = 0%nat.
Proof.
  set (f := Some (Json_object (m :: members))).
  destruct (List.length argv <? 2)%nat eqn:L.
  - unfold main. rewrite L. split; reflexivity.
  - apply Nat.ltb_ge in L. rewrite (main_run _ _ _ _ L).
    destruct (finish_disk rt (load_message f)
                (dispatch rt now (lower rt (arg 1 argv)) argv (init f)))
      as [-> ->].
    destruct (dispatch_started rt now (lower rt (arg 1 argv)) argv f)
      as [S|(_ & _ & E & _)].
    + rewrite S. apply init_file.
    + exfalso. pose proof (init_cases f) as C.
      change (existsb is_str (keys (tasks (init f))) = true) in C.
      rewrite E in C. discriminate.
Qed.

(** The commands that take a task id, with the number of arguments each
    requires. *)
Lemma dispatch_id_command (rt : runtime) (now command : string)
  (argv : list string) (f : option file_content) :
  (command = "update" /\ (4 <= List.length argv)%nat) \/
  ((command = "delete" \/ command = "mark-in-progress" \/
    command = "mark-done") /\ (3 <= List.length argv)%nat) ->
  dispatch rt now command argv (init f)
  = match int rt (arg 2 argv) with
    | inr message => (ValueError message, [], init f)
    | inl task_id => (Returned, [not_found task_id], init f)
    end.
Proof.
  intros [ [ -> L] | [ [ -> | [ -> | -> ] ] L] ]; unfold dispatch; simpl.
  - rewrite command_update_started. apply Nat.ltb_ge in L. now rewrite L.
  - rewrite command_delete_started. apply Nat.ltb_ge in L. now rewrite L.
  - rewrite command_mark_started. apply Nat.ltb_ge in L. now rewrite L.
  - rewrite command_mark_started. apply Nat.ltb_ge in L. now rewrite L.
Qed.

Lemma id_command_length (command : string) (argv : list string) :
  (command = "update" /\ (4 <= List.length argv)%nat) \/
  ((command = "delete" \/ command = "mark-in-progress" \/
    command = "mark-done") /\ (3 <= List.length argv)%nat) ->
  (2 <= List.length argv)%nat.
Proof. intros [[_ L]|[_ L]]; lia. Qed.



(** X14: [update], [delete], [mark-in-progress] and [mark-done], given
    their arguments and an id that [int] rejects, print the message of
    the [ValueError] after [Error: Invalid input - ], end with status 1
    and leave the file as it was. *)
Theorem main_invalid_id
  (rt : runtime) (now : string) (argv : list string)
  (f : option file_content) (message : string) :
  (lower rt (arg 1 argv) = "update" /\ (4 <= List.length argv)%nat) \/
  ((lower rt (arg 1 argv) = "delete" \/
    lower rt (arg 1 argv) = "mark-in-progress" \/
    lower rt (arg 1 argv) = "mark-done") /\ (3 <= List.length argv)%nat) ->
  int rt (arg 2 argv) = inr message ->
  stdout (main rt now argv f)
  = load_message f ++ [String.append "Error: Invalid input - " message] /\
  exit_code (main rt now argv f) = 1 /\
  disk (main rt now argv f) = f /\
  disk_writes (main rt now argv f) = 0%nat.
Proof.
  intros C I.
  rewrite (main_run _ _ _ _ (id_command_length _ _ C)).
  rewrite (dispatch_id_command rt now _ argv f C), I. simpl.
  destruct (init_file f) as [-> ->]. repeat split.
Qed.

Lemma main_invalid_id_witness :
  let argv := ["task_cli.py"; "delete"; "one"] in
  stdout (main sample_runtime "t" argv None)
  = ["Error: Invalid input - invalid literal: one"] /\
  exit_code (main sample_runtime "t" argv None) = 1 /\
  disk (main sample_runtime "t" argv None) = None /\
  disk_writes (main sample_runtime "t" argv None) = 0%nat.
Proof.
  intros argv.
  apply (main_invalid_id sample_runtime "t" argv None "invalid literal: one").
  - right. split; [left; reflexivity | simpl; lia].
  - reflexivity.
Defined.

(** X15: [add] with a description, in a process that found no file, a
    file that is not JSON or an empty object, prints the confirmation
    with the id 1, ends with status 0 and leaves a file holding that one
    task (a file that was not JSON is replaced); on a file that holds a
    task it prints the message of the [TypeError], ends with status 1 and
    leaves the file as it was. *)
Theorem main_add
  (rt : runtime) (now : string) (argv : list string)
  (f : option file_content) :
  lower rt (arg 1 argv) = "add" -> (3 <= List.length argv)%nat ->
  match f with
  | Some (Json_object (_ :: _)) =>
      stdout (main rt now argv f)
      = [String.append "Error: " (str_exc rt TypeError)] /\
      exit_code (main rt now argv f) = 1 /\
      disk (main rt now argv f) = f /\
      disk_writes (main rt now argv f) = 0%nat
  | _ =>
      stdout (main rt now argv f)
      = load_message f ++ ["Task added successfully (ID: 1)"] /\
      exit_code (main rt now argv f) = 0 /\
      disk (main rt now argv f)
      = Some (Json_object [("1", new_task 1 now (arg 2 argv))]) /\
      disk_writes (main rt now argv f) = 1%nat
  end.
Proof.
  intros C L.
  assert (L2 : (2 <= List.length argv)%nat) by lia.
  rewrite (main_run _ _ _ _ L2), C. unfold dispatch. simpl.
  rewrite command_add_started. apply Nat.ltb_ge in L. rewrite L.
  destruct f as [[|[|m members]]|]; repeat split.
Qed.

Lemma main_add_witness :
  let argv := ["task_cli.py"; "add"; "buy milk"] in
  stdout (main sample_runtime "t1" argv (Some Invalid_json))
  = ["Error: Invalid JSON file. Creating new tasks file.";
     "Task added successfully (ID: 1)"] /\
  exit_code (main sample_runtime "t1" argv (Some Invalid_json)) = 0 /\
  disk (main sample_runtime "t1" argv (Some Invalid_json))
  = Some (Json_object [("1", new_task 1 "t1" "buy milk")]) /\
  disk_writes (main sample_runtime "t1" argv (Some Invalid_json)) = 1%nat.
Proof.
  intros argv.
  apply (main_add sample_runtime "t1" argv (Some Invalid_json)).
  - reflexivity.
  - simpl. lia.
Defined.

(** X16: after a store with integer keys has been saved, [list] in a
    later process prints six lines for each task that was saved, in the
    order of the store, or only those whose status is the filter given
    as the third argument; it prints [No tasks found] when there is none.
    It ends with status 0 and leaves the file as it was. *)
Theorem main_list_saved
  (rt : runtime) (now : string) (argv : list string) (w : world) :
  wf (tasks w) -> forallb is_int (keys (tasks w)) = true ->
  lower rt (arg 1 argv) = "list" -> (2 <= List.length argv)%nat ->
  stdout (main rt now argv (file (snd (save_tasks w))))
  = listing
      (if (2 <? List.length argv)%nat then
         filter (fun t => String.eqb (status t) (arg 2 argv))
           (values (tasks w))
       else values (tasks w)) /\
  exit_code (main rt now argv (file (snd (save_tasks w)))) = 0 /\
  disk (main rt now argv (file (snd (save_tasks w))))
  = file (snd (save_tasks w)) /\
  disk_writes (main rt now argv (file (snd (save_tasks w)))) = 0%nat.
Proof.
  intros W A C L.
  pose proof (values_restart_int_keys w W A) as V.
  unfold restart in V.
  rewrite (main_run _ _ _ _ L), C. unfold dispatch. simpl String.eqb.
  cbv iota. unfold command_list, list_tasks, bind, get_tasks, ret.
  destruct (2 <? List.length argv)%nat; rewrite V;
    try rewrite comprehension_filter; unfold finish, listing;
    repeat split.
Qed.

Lemma main_list_saved_witness :
  let w :=
    snd (mark_task_status "t3" 2 "done"
           (snd (add_task "t2" "b" (snd (add_task "t1" "a" (init None)))))) in
  let argv := ["task_cli.py"; "list"; "done"] in
  (wf (tasks w) /\ forallb is_int (keys (tasks w)) = true) /\
  stdout (main sample_runtime "t4" argv (file (snd (save_tasks w))))
  = ["ID: 2"; "Description: b"; "Status: done"; "Created: t2";
     "Updated: t3"; times "-" 50] /\
  exit_code (main sample_runtime "t4" argv (file (snd (save_tasks w)))) = 0.
Proof.
  intros w argv.
  assert (W : wf (tasks w)).
  { repeat constructor; simpl; intuition discriminate. }
  split; [split; [exact W | reflexivity]|].
  destruct (main_list_saved sample_runtime "t4" argv w W eq_refl eq_refl)
    as (O & E & _).
  - simpl. lia.
  - split; [exact O | exact E].
Defined.





(** ** Adds in a row *)

(** X18: on a store whose keys are all integers, [add_task] calls made
    one after the other with no delete in between return the ids [m + 1],
    [m + 2], ... where [m] is the largest key before the first call (0 on
    the empty store, so the ids are 1, 2, 3, ...). *)
Theorem adds_return_consecutive_ids
  (descs : list (string * string)) (w : world) (m : Z) :
  forallb is_int (keys (tasks w)) = true ->
  is_max_id (keys (tasks w)) m ->
  added_ids
    (fst (run (map (fun nd => Add (fst nd) (snd nd)) descs) w))
  = map (fun k => m + Z.of_nat k) (seq 1 (List.length descs)).
Proof.
  revert w m.
  induction descs as [|[now d] descs IH]; intros w m A B; [reflexivity|].
  simpl map at 1. simpl run.
  destruct (add_task_ints now d w A) as (m0 & B0 & E).
  rewrite (is_max_id_unique _ _ _ B0 B) in E. rewrite E.
  pose proof (next_id_not_a_key _ _ B) as N.
  set (w' := saved w (set (KInt (m + 1)) (new_task (m + 1) now d) (tasks w))).
  assert (A' : forallb is_int (keys (tasks w')) = true).
  { simpl. now apply ints_set. }
  assert (B' : is_max_id (keys (tasks w')) (m + 1)).
  { simpl. rewrite set_new by assumption. rewrite keys_app. simpl.
    now apply is_max_id_app. }
  specialize (IH w' (m + 1) A' B').
  destruct (run (map (fun nd => Add (fst nd) (snd nd)) descs) w')
    as [tr w''] eqn:R.
  simpl in IH. simpl. rewrite IH. f_equal.
  rewrite <- (seq_shift (List.length descs) 1), map_map.
  apply map_ext. intros k. lia.
Qed.

Lemma adds_return_consecutive_ids_witness :
  let descs := [("t1", "a"); ("t2", "b"); ("t3", "c")] in
  (forallb is_int (keys (tasks (init None))) = true /\
   is_max_id (keys (tasks (init None))) 0) /\
  added_ids
    (fst (run (map (fun nd => Add (fst nd) (snd nd)) descs) (init None)))
  = [1; 2; 3].
Proof.
  intros descs. split; [split; reflexivity|].
  exact (adds_return_consecutive_ids descs (init None) 0 eq_refl eq_refl).
Defined.
